(** * krezh/charts: manifest transformation and chart synthesis

    A shallow embedding of the Go sources
      - internal/common/util.go        (DeepMerge)
      - internal/common/api.go         (ValuesRegex, Modification, Manifests)
      - internal/packager/packager.go  (FilterManifests, ParametrizeManifests,
                                        applyModifications, wrapResult)
      - internal/updater/github        (takeNewerVersion)
      - internal/packager (helm part)  (createTemplates)
    together with the properties the design document states about them. *)

From Stdlib Require Import Ascii String.
From stdpp Require Import gmap strings list fin_maps pretty sorting.

Set Warnings "-register-all".

(** ** Document model

    A decoded YAML value, Go's [any] as produced by [yaml.Unmarshal]:
    nil, a scalar, a [[]any] or a [map[string]any].  Go maps have unique keys
    and no iteration order, hence [gmap]. *)
Inductive value : Type :=
  | VNull
  | VBool (b : bool)
  | VInt (z : Z)
  | VStr (s : string)
  | VSeq (l : list value)
  | VMap (m : gmap string value).

(** The type assertion [v.(map[string]any)]. *)
Definition asMap (v : value) : option (gmap string value) :=
  match v with VMap m => Some m | _ => None end.

(** The type assertion [v.(string)]. *)
Definition asString (v : value) : option string :=
  match v with VStr s => Some s | _ => None end.

Fixpoint value_size (v : value) : nat :=
  match v with
  | VSeq l => S (foldr (λ x acc, value_size x + acc) 0 l)
  | VMap m => S (map_fold (λ _ x acc, value_size x + acc) 0 m)
  | _ => 1
  end.

(** ** Outcomes of Go calls

    A Go function of type [(T, error)] returns a value, returns an error, or
    panics (index out of range, nil dereference). *)
Definition error := string.

Inductive result (A : Type) : Type :=
  | Ok (a : A)
  | Err (e : error)
  | Panic (msg : string).
Arguments Ok {A} a.
Arguments Err {A} e.
Arguments Panic {A} msg.

(** [x ← r; k] is Go's [x, err := r; if err != nil { return ..., err }; k];
    a panic unwinds through it. *)
#[global] Instance result_bind : MBind result := λ A B k r,
  match r with
  | Ok a => k a
  | Err e => Err e
  | Panic msg => Panic msg
  end.
#[global] Instance result_ret : MRet result := λ A a, Ok a.
#[global] Instance result_fmap : FMap result := λ A B f r,
  match r with
  | Ok a => Ok (f a)
  | Err e => Err e
  | Panic msg => Panic msg
  end.

Definition isErr {A} (r : result A) : Prop := ∃ e, r = Err e.
Definition isOk {A} (r : result A) : Prop := ∃ a, r = Ok a.
Definition isPanic {A} (r : result A) : Prop := ∃ msg, r = Panic msg.

(** ** internal/common/util.go: DeepMerge *)

(** One iteration of [for k, v2 := range *second] on the accumulator [out]. *)
Definition mergeEntry (rec : value → value → value)
    (k : string) (v2 : value) (out : gmap string value) : gmap string value :=
  match out !! k with
  | Some v1 =>
      match asMap v1, asMap v2 with
      | Some _, Some _ => <[k := rec v1 v2]> out
      | _, _ => <[k := v2]> out
      end
  | None => <[k := v2]> out
  end.

(** The recursion of [DeepMerge], on values so that it is structural: on two
    mappings it is [DeepMerge], [out] starting as a copy of [first]; it is
    only ever called on two mappings. *)
Fixpoint DeepMergeValue (v1 v2 : value) {struct v2} : value :=
  match v1, v2 with
  | VMap first, VMap second =>
      VMap (map_fold (λ k x2 out,
              match out !! k with
              | Some x1 =>
                  match asMap x1, asMap x2 with
                  | Some _, Some _ => <[k := DeepMergeValue x1 x2]> out
                  | _, _ => <[k := x2]> out
                  end
              | None => <[k := x2]> out
              end) first second)
  | _, _ => v2
  end.

Definition DeepMerge (first second : gmap string value) : gmap string value :=
  map_fold (mergeEntry DeepMergeValue) first second.

(** The same loop, run over the entries of [second] in a given order [l]
    (Go ranges over a map in an unspecified order). *)
Definition DeepMergeIn (l : list (string * value)) (first : gmap string value)
    : gmap string value :=
  foldr (λ kv out, mergeEntry DeepMergeValue kv.1 kv.2 out) first l.

(** What one loop iteration stores at its key. *)
Definition mergeAt (o1 : option value) (v2 : value) : value :=
  match o1 with
  | Some v1 =>
      match asMap v1, asMap v2 with
      | Some _, Some _ => DeepMergeValue v1 v2
      | _, _ => v2
      end
  | None => v2
  end.

(** ** Go standard library: strings and regexp *)

(** The one-byte string holding a double quote. *)
Definition dq : string := String (ascii_of_nat 34) EmptyString.

(** [strings.ToLower] folds case over Unicode; the development only relies
    on its being a function, so it is an interface here. *)
Class Strings := { ToLower : string → string }.

(** [strings.Split(s, sep)] for a one-byte separator: never empty. *)
Fixpoint Split (sep : ascii) (s : string) : list string :=
  match s with
  | EmptyString => [EmptyString]
  | String c s' =>
      if Ascii.eqb c sep then EmptyString :: Split sep s'
      else match Split sep s' with
           | h :: t => String c h :: t
           | [] => [String c EmptyString]
           end
  end.

(** [strings.TrimPrefix] as a test: the rest of [s] after [p], if [s] starts
    with [p]. *)
Fixpoint stripPrefix (p s : string) : option string :=
  match p, s with
  | EmptyString, _ => Some s
  | String a p', String b s' => if Ascii.eqb a b then stripPrefix p' s' else None
  | String _ _, EmptyString => None
  end.

Fixpoint takeString (n : nat) (s : string) : string :=
  match n, s with
  | S n', String c s' => String c (takeString n' s')
  | _, _ => EmptyString
  end.

(** Package [regexp], as far as the rule engine uses it. *)
Class Regexp := {
  regexp : Type;
  Compile : string → result regexp;
  MatchString : regexp → string → bool;
}.

(** ** github.com/Masterminds/semver/v3

    The version library the updater calls, modelled after its version 3:
    the coercing parser [NewVersion], [Compare] and [String]. *)
Module semver.

(** [type Version struct]; the segments are [uint64]. *)
Record Version := {
  major : N;
  minor : N;
  patch : N;
  pre : string;
  metadata : string;
  original : string;
}.

Definition isDigit (c : ascii) : bool :=
  let n := N_of_ascii c in (48 <=? n)%N && (n <=? 57)%N.

Definition isLetter (c : ascii) : bool :=
  let n := N_of_ascii c in
  ((65 <=? n)%N && (n <=? 90)%N) || ((97 <=? n)%N && (n <=? 122)%N).

(** The class [[0-9A-Za-z\-]] and, for a dotted run, the dot. *)
Definition isIdentChar (c : ascii) : bool :=
  isDigit c || isLetter c || N.eqb (N_of_ascii c) 45.
Definition isIdentOrDot (c : ascii) : bool :=
  isIdentChar c || N.eqb (N_of_ascii c) 46.

Fixpoint spanWhile (f : ascii → bool) (s : string) : string * string :=
  match s with
  | String c s' =>
      if f c then let '(g, r) := spanWhile f s' in (String c g, r)
      else (EmptyString, s)
  | EmptyString => (EmptyString, s)
  end.

Fixpoint allChars (f : ascii → bool) (s : string) : bool :=
  match s with
  | String c s' => f c && allChars f s'
  | EmptyString => true
  end.

Definition ErrInvalidSemVer : error := "Invalid Semantic Version".
Definition ErrSegmentStartsZero : error := "Version segment starts with 0".

(** [strconv.ParseUint(s, 10, 64)] on a string of digits. *)
Fixpoint digitsValue (acc : N) (s : string) : N :=
  match s with
  | String c s' => digitsValue (10 * acc + (N_of_ascii c - 48))%N s'
  | EmptyString => acc
  end.

Definition ParseUint (s : string) : result N :=
  if bool_decide (s = EmptyString) || negb (allChars isDigit s)
  then Err "strconv.ParseUint: invalid syntax"
  else let n := digitsValue 0 s in
       if (n <? 2 ^ 64)%N then Ok n
       else Err "strconv.ParseUint: value out of range".

(** An optional group [(\.[0-9]+)?]: its digits (empty when the group does
    not take part) and the rest. *)
Definition dotDigits (s : string) : string * string :=
  match stripPrefix "." s with
  | Some r =>
      let '(d, r') := spanWhile isDigit r in
      if bool_decide (d = EmptyString) then (EmptyString, s) else (d, r')
  | None => (EmptyString, s)
  end.

(** An optional group made of the lead byte and one or more identifiers
    separated by dots: the dotted identifiers and the rest. *)
Definition dotted (lead : string) (s : string) : string * string :=
  match stripPrefix lead s with
  | Some r =>
      let '(run, r') := spanWhile isIdentOrDot r in
      if forallb (λ part, negb (bool_decide (part = EmptyString))) (Split "." run)
      then (run, r') else (EmptyString, s)
  | None => (EmptyString, s)
  end.

Definition segment (digits : string) : result N :=
  if bool_decide (digits = EmptyString) then Ok 0%N else ParseUint digits.

(** [validatePrerelease]: a numeric identifier has no leading zero. *)
Definition validatePrerelease (p : string) : result unit :=
  if forallb (λ part,
        negb (allChars isDigit part && (1 <? String.length part)%nat
              && bool_decide (stripPrefix "0" part ≠ None)))
       (Split "." p)
  then Ok () else Err ErrSegmentStartsZero.

Definition NewVersion (v : string) : result Version :=
  let s0 := default v (stripPrefix "v" v) in
  let '(d1, s1) := spanWhile isDigit s0 in
  let '(d2, s2) := dotDigits s1 in
  let '(d3, s3) := dotDigits s2 in
  let '(p, s4) := dotted "-" s3 in
  let '(m, s5) := dotted "+" s4 in
  if bool_decide (d1 = EmptyString) || negb (bool_decide (s5 = EmptyString))
  then Err ErrInvalidSemVer
  else
    ma ← ParseUint d1;
    mi ← segment d2;
    pa ← segment d3;
    _ ← (if bool_decide (p = EmptyString) then Ok () else validatePrerelease p);
    Ok {| major := ma; minor := mi; patch := pa;
          pre := p; metadata := m; original := v |}.

Definition compareSegment (v o : N) : Z :=
  if (v <? o)%N then (-1)%Z else if (o <? v)%N then 1%Z else 0%Z.

Definition isNumber (s : string) : bool :=
  match ParseUint s with Ok _ => true | _ => false end.

Definition comparePrePart (s o : string) : Z :=
  if bool_decide (s = o) then 0%Z
  else if bool_decide (s = EmptyString) then (-1)%Z
  else if bool_decide (o = EmptyString) then 1%Z
  else match isNumber o, isNumber s with
       | false, false => if String.ltb o s then 1%Z else (-1)%Z
       | false, true => (-1)%Z
       | true, false => 1%Z
       | true, true =>
           if (digitsValue 0 o <? digitsValue 0 s)%N then 1%Z else (-1)%Z
       end.

(** The loop [for i := 0; i < l; i++] of [comparePrerelease], with [n]
    iterations left; a missing part reads as the empty string. *)
Fixpoint comparePartsFrom (n i : nat) (sparts oparts : list string) : Z :=
  match n with
  | O => 0%Z
  | S n' =>
      let stemp := default EmptyString (sparts !! i) in
      let otemp := default EmptyString (oparts !! i) in
      let d := comparePrePart stemp otemp in
      if bool_decide (d ≠ 0%Z) then d
      else comparePartsFrom n' (S i) sparts oparts
  end.

Definition comparePrerelease (v o : string) : Z :=
  let sparts := Split "." v in
  let oparts := Split "." o in
  comparePartsFrom (length sparts `max` length oparts) 0 sparts oparts.

(** [v.Compare(o)]: -1, 0 or 1; build metadata takes no part. *)
Definition Compare (v o : Version) : Z :=
  let d := compareSegment (major v) (major o) in
  if bool_decide (d ≠ 0%Z) then d else
  let d := compareSegment (minor v) (minor o) in
  if bool_decide (d ≠ 0%Z) then d else
  let d := compareSegment (patch v) (patch o) in
  if bool_decide (d ≠ 0%Z) then d else
  if bool_decide (pre v = EmptyString) && bool_decide (pre o = EmptyString) then 0%Z
  else if bool_decide (pre v = EmptyString) then 1%Z
  else if bool_decide (pre o = EmptyString) then (-1)%Z
  else comparePrerelease (pre v) (pre o).

(** [v.String()]. *)
Definition String (v : Version) : string :=
  pretty (major v) +:+ "." +:+ pretty (minor v) +:+ "." +:+ pretty (patch v)
  +:+ (if bool_decide (pre v = EmptyString) then EmptyString else "-" +:+ pre v)
  +:+ (if bool_decide (metadata v = EmptyString) then EmptyString
       else "+" +:+ metadata v).

End semver.

(** ** internal/common/api.go *)

Definition Kind : string := "kind".

(** *** ValuesRegex

    [ValuesRegexCompiled.FindAllStringSubmatch(s, -1)] for the one pattern
    [\{\{\s*\.Values\.([^\s\}]+).*?\}\}], written out as the matcher that
    pattern denotes under Go's leftmost-first semantics. *)

(** Go's [\s]: tab, newline, form feed, carriage return, space. *)
Definition isSpace (c : ascii) : bool :=
  match N_of_ascii c with
  | 9%N | 10%N | 12%N | 13%N | 32%N => true
  | _ => false
  end.

Definition isNewline (c : ascii) : bool := N.eqb (N_of_ascii c) 10.
Definition isCloseBrace (c : ascii) : bool := N.eqb (N_of_ascii c) 125.

(** [\s*], greedy. *)
Fixpoint dropSpaces (s : string) : string :=
  match s with
  | String c s' => if isSpace c then dropSpaces s' else s
  | EmptyString => s
  end.

(** [[^\s\}]*], greedy: the run and what follows it. *)
Fixpoint spanValuePath (s : string) : string * string :=
  match s with
  | String c s' =>
      if isSpace c || isCloseBrace c then (EmptyString, s)
      else let '(g, r) := spanValuePath s' in (String c g, r)
  | EmptyString => (EmptyString, s)
  end.

(** [.*?\}\}], lazy: what follows the first [}}] reached without crossing a
    newline. *)
Fixpoint findClose (s : string) : option string :=
  match stripPrefix "}}" s with
  | Some r => Some r
  | None =>
      match s with
      | String c s' => if isNewline c then None else findClose s'
      | EmptyString => None
      end
  end.

(** A match of the pattern starting at the head of [s]: the submatch slice
    [[whole; group 1]]. *)
Definition matchValuesAt (s : string) : option (list string) :=
  s1 ← stripPrefix "{{" s;
  s2 ← stripPrefix ".Values." (dropSpaces s1);
  let '(g, s3) := spanValuePath s2 in
  if bool_decide (g = EmptyString) then None
  else r ← findClose s3;
       Some [takeString (String.length s - String.length r) s; g].

(** All non-overlapping matches, left to right; [skip] counts the bytes of
    the current match still to be passed. *)
Fixpoint findAllFrom (skip : nat) (s : string) : list (list string) :=
  match s with
  | EmptyString => []
  | String _ s' =>
      match skip with
      | S n => findAllFrom n s'
      | O =>
          match matchValuesAt s with
          | Some m =>
              m :: findAllFrom
                     (String.length (default EmptyString (m !! 0)) - 1) s'
          | None => findAllFrom 0 s'
          end
      end
  end.

Definition FindAllStringSubmatch (s : string) : list (list string) :=
  findAllFrom 0 s.

(** [type Modification struct]; its field [Kind] is [ModKind] here, [Kind]
    being the constant above. *)
Record Modification := {
  Expression : string;
  (** A nil and an empty slice behave alike in every use. *)
  ValuesSelector : list string;
  ModKind : string;
  Reject : string;
}.

Definition NewYqModification (expression : string) : Modification :=
  {| Expression := expression; ValuesSelector := [];
     ModKind := EmptyString; Reject := EmptyString |}.

(** [type Manifests struct]; its field [Manifests] is [manifests] here. *)
Record Manifests := {
  Crds : list (gmap string value);
  manifests : list (gmap string value);
  Version : semver.Version;
  AppVersion : string;
  Values : gmap string value;
  CrdsValues : gmap string value;
}.

(** [m[Kind].(string)]: the kind of a document, when it has one that is a
    string. *)
Definition kindOf (m : gmap string value) : option string :=
  m !! Kind ≫= asString.

(** ** internal/packager/packager.go *)

(** [type modifier struct]: the encoder, decoder and evaluator of the yq
    library, behind their interfaces.  A [node] is a [*yqlib.CandidateNode];
    evaluating an expression may assign into the node it is given, so
    [EvaluateNodes] returns the node as the call leaves it, next to the
    matches. *)
Record modifier := {
  node : Type;
  (** [yaml.Marshal(manifest)], [decoder.Init], [decoder.Decode]. *)
  decode : gmap string value → result node;
  (** [evaluator.EvaluateNodes(expression, candidNode)]. *)
  EvaluateNodes : string → node → result (list node * node);
  (** [decodeResult[any]]: print the matches, [yaml.Unmarshal] into [any]. *)
  resultToAny : list node → result value;
  (** [decodeResult[*map[string]any]]: [None] is the nil pointer an empty
      or null output leaves. *)
  resultToMap : list node → result (option (gmap string value));
}.

Section packager.
Context `{Strings} `{Regexp} (m : modifier).

(** The [deniedKinds] set of [FilterManifests]; a Go [map[string]bool]
    reads [false] at a key it does not hold. *)
Definition deniedKinds (denyKindFilter : list string) : gmap string bool :=
  foldl (λ acc filter, <[ToLower filter := true]> acc) ∅ denyKindFilter.

Definition isDenied (denied : gmap string bool) (doc : gmap string value)
    : bool :=
  match kindOf doc with
  | Some kind => default false (denied !! ToLower kind)
  | None => false
  end.

Definition FilterManifests (ms : Manifests) (denyKindFilter : list string)
    : Manifests :=
  let denied := deniedKinds denyKindFilter in
  let filteredManifests :=
    foldl (λ acc doc, if isDenied denied doc then acc else (acc ++ [doc])%list)
          [] (manifests ms) in
  {| Crds := Crds ms;
     manifests := filteredManifests;
     Version := Version ms;
     AppVersion := AppVersion ms;
     Values := Values ms;
     CrdsValues := CrdsValues ms |}.

(** The loop [for i := len(path) - 1; i >= 0; i--] of [wrapResult]. *)
Definition wrapUnder (path : list string) (v : value) : value :=
  foldr (λ seg e, VMap {[ seg := e ]}) v path.

Definition wrapResult (res : list (node m)) (underPath : string)
    : result (gmap string value) :=
  if bool_decide (length res ≠ 1)
  then Err "yq result does not contain exactly one element"
  else
    v ← resultToAny m res;
    match v with
    | VNull => Ok ∅
    | _ =>
        match asMap (wrapUnder (Split "." underPath) v) with
        | Some mapVal => Ok mapVal
        | None => Err "wrapped value is not a map[string]any"
        end
    end.

(** What the body of the rule loop of [applyModifications] carries from
    one rule to the next. *)
Record loopState := {
  candidNode : node m;
  modifiedManifest : gmap string value;
  extractedValues : gmap string value;
}.

(** The loop [for i, sel := range mod.ValuesSelector], from index [i]. *)
Fixpoint extractValues (expression : string) (matches : list (list string))
    (i : nat) (sels : list string) (cand : node m) (extracted : gmap string value)
    : result (node m * gmap string value) :=
  match sels with
  | [] => Ok (cand, extracted)
  | sel :: sels' =>
      '(vals, cand') ← EvaluateNodes m sel cand;
      if bool_decide (1 ≤ length matches)%nat then
        match matches !! i with
        | None => Panic "index out of range"
        | Some mi =>
            match mi !! 1 with
            | None => Panic "index out of range"
            | Some underPath =>
                valuesMap ← wrapResult vals underPath;
                extractValues expression matches (S i) sels' cand'
                              (DeepMerge extracted valuesMap)
            end
        end
      else Err ("no value path found in expression '" +:+ expression +:+ "'")
  end.

(** Whether the kind tests let the rule through: [Ok false] is the
    [continue] of the loop. *)
Definition kindGate (manifest : gmap string value) (md : Modification)
    : result bool :=
  passKind ←
    (if bool_decide (ModKind md ≠ EmptyString) then
       rc ← Compile (ModKind md);
       Ok (match kindOf manifest with
           | Some kind => MatchString rc kind
           | None => false
           end)
     else Ok true);
  if negb passKind then Ok false
  else if bool_decide (Reject md ≠ EmptyString) then
    rc ← Compile (Reject md);
    Ok (match kindOf manifest with
        | Some kind => negb (MatchString rc kind)
        | None => true
        end)
  else Ok true.

(** One turn of the loop [for _, mod := range *mods]. *)
Definition applyModification (manifest : gmap string value)
    (st : loopState) (md : Modification) : result loopState :=
  pass ← kindGate manifest md;
  if negb pass then Ok st
  else
    '(cand, extracted) ←
      extractValues (Expression md) (FindAllStringSubmatch (Expression md))
                    0 (ValuesSelector md) (candidNode st) (extractedValues st);
    '(res, cand') ← EvaluateNodes m (Expression md) cand;
    resultManifest ← resultToMap m res;
    match resultManifest with
    | None => Panic "nil pointer dereference"
    | Some modified =>
        Ok {| candidNode := cand';
              modifiedManifest := modified;
              extractedValues := extracted |}
    end.

Fixpoint applyLoop (manifest : gmap string value) (st : loopState)
    (mods : list Modification) : result loopState :=
  match mods with
  | [] => Ok st
  | md :: mods' =>
      st' ← applyModification manifest st md;
      applyLoop manifest st' mods'
  end.

(** The variables of [applyModifications] on entry to the rule loop. *)
Definition initialState (manifest : gmap string value) (cand : node m)
    : loopState :=
  {| candidNode := cand;
     modifiedManifest := manifest;
     extractedValues := ∅ |}.

(** Returns the modified manifest and the extracted values. *)
Definition applyModifications (manifest : gmap string value)
    (mods : list Modification)
    : result (gmap string value * gmap string value) :=
  cand ← decode m manifest;
  st ← applyLoop manifest (initialState manifest cand) mods;
  Ok (modifiedManifest st, extractedValues st).

(** The two loops of [ParametrizeManifests] have one body: apply the
    rules to each document in turn, collect the results and merge the
    extracted values into the accumulated ones. *)
Fixpoint parametrizeAll (docs : list (gmap string value))
    (mods : list Modification)
    (modified : list (gmap string value)) (extracted : gmap string value)
    : result (list (gmap string value) * gmap string value) :=
  match docs with
  | [] => Ok (modified, extracted)
  | doc :: docs' =>
      '(d, v) ← applyModifications doc mods;
      parametrizeAll docs' mods (modified ++ [d])%list (DeepMerge extracted v)
  end.

Definition ParametrizeManifests (ms : Manifests) (mods : list Modification)
    : result Manifests :=
  '(modifiedManifests, extractedValues) ←
    parametrizeAll (manifests ms) mods [] (Values ms);
  '(modifiedCrds, extractedCrdValues) ←
    parametrizeAll (Crds ms) mods [] (CrdsValues ms);
  Ok {| Crds := modifiedCrds;
        manifests := modifiedManifests;
        Version := Version ms;
        AppVersion := AppVersion ms;
        Values := extractedValues;
        CrdsValues := extractedCrdValues |}.

End packager.

(** *** Filtering, as the design states it

    A document is excluded when its kind, compared without regard to case,
    appears in the exclusion list. *)
Definition sameKind `{Strings} (a b : string) : Prop := ToLower a = ToLower b.

Definition excluded `{Strings} (deny : list string) (doc : gmap string value)
    : Prop :=
  match kindOf doc with
  | Some kind => Exists (sameKind kind) deny
  | None => False
  end.

#[global] Instance sameKind_dec `{Strings} a b : Decision (sameKind a b).
Proof. unfold sameKind. apply _. Defined.

#[global] Instance excluded_dec `{Strings} deny doc : Decision (excluded deny doc).
Proof. unfold excluded. destruct (kindOf doc); apply _. Defined.

(** *** The kind gate, as the design states it *)
Section gate_spec.
Context `{Regexp}.

(** The rule has a well-formed kind pattern that the kind of the document
    does not match; a document without a string kind matches none. *)
Definition kindMismatch (manifest : gmap string value) (md : Modification)
    : Prop :=
  ModKind md ≠ EmptyString
  ∧ ∃ rc, Compile (ModKind md) = Ok rc
          ∧ match kindOf manifest with
            | Some kind => MatchString rc kind = false
            | None => True
            end.

(** The rule has a well-formed reject pattern that the kind of the
    document matches, its kind pattern, if any, being well formed. *)
Definition rejectMatch (manifest : gmap string value) (md : Modification)
    : Prop :=
  Reject md ≠ EmptyString
  ∧ (ModKind md = EmptyString ∨ isOk (Compile (ModKind md)))
  ∧ ∃ rc kind, Compile (Reject md) = Ok rc
               ∧ kindOf manifest = Some kind
               ∧ MatchString rc kind = true.
End gate_spec.

(** ** internal/updater/github: takeNewerVersion *)

(** The result is a [*semver.Version]: [None] is the nil pointer.  The error
    of parsing [existingVersion] is dropped by the source, which leaves a
    nil [semverExisting]; [Compare] then dereferences it. *)
Definition takeNewerVersion (existingVersion remoteVersion : string)
    : result (option semver.Version) :=
  let semverExisting :=
    match semver.NewVersion existingVersion with
    | Ok v => Some v
    | _ => None
    end in
  match semver.NewVersion remoteVersion with
  | Ok semverRemote =>
      match semverExisting with
      | None => Panic "nil pointer dereference"
      | Some existing =>
          if (semver.Compare semverRemote existing <? 0)%Z
          then Ok (Some existing)
          else Ok (Some semverRemote)
      end
  | Err _ => Ok semverExisting
  | Panic msg => Panic msg
  end.

(** The resolver as the design names it: the resolved version, printed. *)
Definition resolveVersion (existing remote : string) : result (option string) :=
  fmap (M:=option) semver.String <$> takeNewerVersion existing remote.

(** ** internal/packager: createTemplates *)

(** [helm.sh/helm/v3/pkg/chart], the fields the packager touches. *)
Module chart.
Record File := { Name : string; Data : string }.
Record Metadata := {
  MetaName : string;
  MetaVersion : string;
  MetaAppVersion : string;
  Description : string;
}.
Record Chart := {
  Meta : Metadata;
  Templates : list File;
}.
End chart.

(** [yaml.Marshal] of a document. *)
Class Yaml := { Marshal : gmap string value → result string }.

Definition nl : string := String (ascii_of_nat 10) EmptyString.
Definition sq : string := "'".

(** The document-boundary marker put between two documents of a template. *)
Definition docSeparator : string := nl +:+ "---" +:+ nl.

(** *** The quote-stripping replacement

    [re.ReplaceAllFunc] for the pattern made of a template expression
    between two single or two double quotes, the inside matched lazily and
    within one line; each match is replaced by [match[1 : len(match)-1]]. *)

(** What follows the first [}}] and quote [q] reached without crossing a
    newline. *)
Fixpoint findCloseQuoted (q : string) (s : string) : option string :=
  match stripPrefix ("}}" +:+ q) s with
  | Some r => Some r
  | None =>
      match s with
      | String c s' => if isNewline c then None else findCloseQuoted q s'
      | EmptyString => None
      end
  end.

(** The text of a match starting at the head of [s]. *)
Definition matchQuotedAt (s : string) : option string :=
  let try q :=
    s1 ← stripPrefix (q +:+ "{{") s;
    r ← findCloseQuoted q s1;
    Some (takeString (String.length s - String.length r) s) in
  match try sq with
  | Some whole => Some whole
  | None => try dq
  end.

(** [match[1 : len(match)-1]]. *)
Definition dropQuotes (whole : string) : string :=
  match whole with
  | String _ rest => takeString (String.length rest - 1) rest
  | EmptyString => EmptyString
  end.

Fixpoint replaceQuotedFrom (skip : nat) (s : string) : string :=
  match s with
  | EmptyString => EmptyString
  | String c s' =>
      match skip with
      | S n => replaceQuotedFrom n s'
      | O =>
          match matchQuotedAt s with
          | Some whole =>
              dropQuotes whole +:+ replaceQuotedFrom (String.length whole - 1) s'
          | None => String c (replaceQuotedFrom 0 s')
          end
      end
  end.

Definition stripTemplateQuotes (manifestYAML : string) : string :=
  replaceQuotedFrom 0 manifestYAML.

Section helm.
Context `{Strings} `{Yaml}.
(** The order in which [for _, tmpl := range templates] visits the map:
    Go leaves it unspecified, and it may differ from run to run. *)
Context (rangeOrder : gmap string chart.File → list (string * chart.File)).

(** The YAML text of a document as it goes into a template. *)
Definition renderManifest (manifest : gmap string value) : result string :=
  stripTemplateQuotes <$> Marshal manifest.

Definition templateName (kind : string) : string :=
  "templates/" +:+ ToLower kind +:+ ".yaml".

(** The loop [for i, manifest := range *newManifests], from index [i]. *)
Fixpoint collectTemplates (i : nat) (newManifests : list (gmap string value))
    (templates : gmap string chart.File) : result (gmap string chart.File) :=
  match newManifests with
  | [] => Ok templates
  | manifest :: rest =>
      manifestYAML ← renderManifest manifest;
      match kindOf manifest with
      | None =>
          Err ("manifest " +:+ pretty i +:+ " does not have a valid 'kind' field")
      | Some kind =>
          collectTemplates (S i) rest
            match templates !! kind with
            | Some existingTemplate =>
                <[kind := {| chart.Name := chart.Name existingTemplate;
                             chart.Data := chart.Data existingTemplate
                                           +:+ docSeparator +:+ manifestYAML |}]>
                  templates
            | None =>
                <[kind := {| chart.Name := templateName kind;
                             chart.Data := manifestYAML |}]> templates
            end
      end
  end.

Definition createTemplates (ch : chart.Chart)
    (newManifests : list (gmap string value)) : result chart.Chart :=
  templates ← collectTemplates 0 newManifests ∅;
  Ok {| chart.Meta := chart.Meta ch;
        chart.Templates := (rangeOrder templates).*2 |}.

End helm.

(** *** Grouping, as the design states it *)
Section templates_spec.
Context `{Strings} `{Yaml}.

(** The text of a document in its template. *)
Definition renderedText (doc : gmap string value) : string :=
  match renderManifest doc with
  | Ok text => text
  | _ => EmptyString
  end.

(** The documents of one kind, in input order. *)
Definition docsOfKind (kind : string) (docs : list (gmap string value))
    : list (gmap string value) :=
  filter (λ d, kindOf d = Some kind) docs.

(** Texts put one after the other, a boundary marker between two. *)
Definition joinDocs (texts : list string) : string :=
  match texts with
  | [] => EmptyString
  | t :: ts => foldl (λ acc t', acc +:+ docSeparator +:+ t') t ts
  end.

(** The one template unit of a kind. *)
Definition templateUnit (docs : list (gmap string value)) (kind : string)
    : chart.File :=
  {| chart.Name := templateName kind;
     chart.Data := joinDocs (renderedText <$> docsOfKind kind docs) |}.

(** The kinds that occur in the documents, each once. *)
Definition kindsOf (docs : list (gmap string value)) : list string :=
  remove_dups (omap kindOf docs).

(** A document that can go into a template: it renders and has a kind. *)
Definition templatable (d : gmap string value) : Prop :=
  isOk (renderManifest d) ∧ is_Some (kindOf d).

(** A template after one more document text. *)
Definition appendDoc (f : chart.File) (text : string) : chart.File :=
  {| chart.Name := chart.Name f;
     chart.Data := chart.Data f +:+ docSeparator +:+ text |}.

(** The entry of a kind after the texts of more documents of that kind. *)
Definition extendUnit (kind : string) (o : option chart.File)
    (texts : list string) : option chart.File :=
  match o, texts with
  | Some f, _ => Some (foldl appendDoc f texts)
  | None, [] => None
  | None, t :: ts =>
      Some (foldl appendDoc
              {| chart.Name := templateName kind; chart.Data := t |} ts)
  end.

End templates_spec.

(** An iteration order that Go may choose: some arrangement of the entries
    of the map. *)
Definition validOrder {A} (order : gmap string A → list (string * A)) : Prop :=
  ∀ m, order m ≡ₚ map_to_list m.

(** Two such orders: that of [map_to_list], and its reverse. *)
Definition forwardOrder (t : gmap string chart.File)
    : list (string * chart.File) :=
  map_to_list t.

Definition reverseOrder (t : gmap string chart.File)
    : list (string * chart.File) :=
  reverse (map_to_list t).

(** ** Stand-ins for the libraries, to run the code on concrete inputs *)
Module doubles.

Definition lowerAscii (c : ascii) : ascii :=
  let n := N_of_ascii c in
  if (65 <=? n)%N && (n <=? 90)%N then ascii_of_N (n + 32) else c.

Fixpoint lowerString (s : string) : string :=
  match s with
  | String c s' => String (lowerAscii c) (lowerString s')
  | EmptyString => EmptyString
  end.

(** [strings.ToLower] on ASCII text. *)
#[export] Instance asciiStrings : Strings := {| ToLower := lowerString |}.

Fixpoint contains (p s : string) : bool :=
  bool_decide (is_Some (stripPrefix p s))
  || match s with
     | String _ s' => contains p s'
     | EmptyString => false
     end.

(** Patterns of letters and digits, which match the strings that contain
    them; every other pattern is refused. *)
#[export] Instance literalRegexp : Regexp := {|
  regexp := string;
  Compile p :=
    if semver.allChars (λ c, semver.isDigit c || semver.isLetter c) p
    then Ok p else Err "error parsing regexp";
  MatchString p s := contains p s;
|}.

(** A flow-style printer for documents. *)
Fixpoint showValue (v : value) : string :=
  match v with
  | VNull => "null"
  | VBool b => if b then "true" else "false"
  | VInt z => pretty z
  | VStr s => sq +:+ s +:+ sq
  | VSeq l => "[" +:+ foldr (λ x acc, showValue x +:+ "," +:+ acc) "]" l
  | VMap m =>
      "{" +:+ foldr (λ kx acc, kx.1 +:+ ": " +:+ kx.2 +:+ "," +:+ acc) "}"
               (merge_sort (λ a b, String.leb a.1 b.1)
                  (map_fold (λ k x acc, (k, showValue x) :: acc) [] m))
  end.

#[export] Instance flowYaml : Yaml := {| Marshal m := Ok (showValue (VMap m)) |}.

(** A path [.a.b.c] read off a value; a missing key reads as null. *)
Fixpoint getPath (path : list string) (v : value) : value :=
  match path with
  | [] => v
  | k :: path' =>
      match v with
      | VMap m => match m !! k with
                  | Some x => getPath path' x
                  | None => VNull
                  end
      | _ => VNull
      end
  end.

(** The assignment [.a.b.c |= x]; missing mappings are created. *)
Fixpoint setPath (path : list string) (x : value) (v : value) : value :=
  match path with
  | [] => x
  | k :: path' =>
      let m := default ∅ (asMap v) in
      VMap (<[k := setPath path' x (default VNull (m !! k))]> m)
  end.

(** [.a.b] as the key list; [.] is the empty path. *)
Definition parsePath (s : string) : option (list string) :=
  r ← stripPrefix "." s;
  Some (if bool_decide (r = EmptyString) then [] else Split "." r).

(** Splits an expression at its first [ |= ]. *)
Fixpoint splitAssign (s : string) : option (string * string) :=
  match stripPrefix " |= " s with
  | Some r => Some (EmptyString, r)
  | None =>
      match s with
      | String c s' =>
          '(l, r) ← splitAssign s'; Some (String c l, r)
      | EmptyString => None
      end
  end.

(** A string literal between double quotes. *)
Definition parseLiteral (s : string) : option string :=
  r ← stripPrefix dq s;
  let body := takeString (String.length r - 1) r in
  if bool_decide (r = body +:+ dq) then Some body else None.

(** A small evaluator: a path, or a path assigned a string literal; the
    assignment writes into the node it is given, as yq does. *)
Definition evaluate (expression : string) (n : value)
    : result (list value * value) :=
  match splitAssign expression with
  | Some (lhs, rhs) =>
      match parsePath lhs, parseLiteral rhs with
      | Some path, Some lit =>
          let n' := setPath path (VStr lit) n in Ok ([n'], n')
      | _, _ => Err "bad expression"
      end
  | None =>
      match parsePath expression with
      | Some path => Ok ([getPath path n], n)
      | None => Err "bad expression"
      end
  end.

Definition miniYq : modifier := {|
  node := value;
  decode doc := Ok (VMap doc);
  EvaluateNodes := evaluate;
  resultToAny res := Ok (default VNull (head res));
  resultToMap res :=
    match default VNull (head res) with
    | VMap mp => Ok (Some mp)
    | VNull => Ok None
    | _ => Err "yaml: cannot unmarshal into map[string]interface {}"
    end;
|}.

End doubles.

(** ** Concrete documents and rules *)
Module fixtures.
Import doubles.

Definition quoted (s : string) : string := dq +:+ s +:+ dq.

Definition docRole : gmap string value :=
  {[ "kind" := VStr "Role"; "a" := VInt 1; "b" := VInt 2 ]}.

Definition docKubeVirt : gmap string value :=
  {[ "kind" := VStr "KubeVirt";
     "spec" := VMap {[ "configuration" := VMap {[ "x" := VInt 1 ]};
                       "customizeComponents" := VNull ]} ]}.

Definition docNoKind : gmap string value := {[ "a" := VInt 1 ]}.

(** Selectors, and no placeholder reference in the expression. *)
Definition ruleNoPlaceholder : Modification :=
  {| Expression := ".a |= " +:+ quoted "x";
     ValuesSelector := [".a"]; ModKind := EmptyString; Reject := EmptyString |}.

(** Two placeholder references for one selector. *)
Definition ruleSurplus : Modification :=
  {| Expression := ".a |= " +:+ quoted "{{ .Values.x }} {{ .Values.y }}";
     ValuesSelector := [".a"]; ModKind := EmptyString; Reject := EmptyString |}.

(** One placeholder reference for two selectors. *)
Definition ruleShort : Modification :=
  {| Expression := ".a |= " +:+ quoted "{{ .Values.x }}";
     ValuesSelector := [".a"; ".b"];
     ModKind := EmptyString; Reject := EmptyString |}.

Definition ruleKubeVirt : Modification :=
  {| Expression :=
       ".spec.configuration |= " +:+ quoted "{{ .Values.kubevirt.configuration }}";
     ValuesSelector := [".spec.configuration"];
     ModKind := "KubeVirt"; Reject := EmptyString |}.

Definition ruleNullValue : Modification :=
  {| Expression :=
       ".spec.customizeComponents |= "
       +:+ quoted "{{ .Values.kubevirt.customizeComponents }}";
     ValuesSelector := [".spec.customizeComponents"];
     ModKind := "KubeVirt"; Reject := EmptyString |}.

Definition ruleNamespace : Modification :=
  NewYqModification
    (".metadata.namespace |= " +:+ quoted "{{ .Release.Namespace }}").

(** A kind pattern that does not compile. *)
Definition ruleMalformed : Modification :=
  {| Expression := ".a |= " +:+ quoted "x";
     ValuesSelector := []; ModKind := "("; Reject := EmptyString |}.

Definition version001 : semver.Version :=
  {| semver.major := 0; semver.minor := 0; semver.patch := 1;
     semver.pre := EmptyString; semver.metadata := EmptyString;
     semver.original := "0.0.1" |}.

Definition release (docs crds : list (gmap string value)) : Manifests :=
  {| Crds := crds; manifests := docs; Version := version001;
     AppVersion := "0.0.1"; Values := ∅; CrdsValues := ∅ |}.

Definition emptyChart : chart.Chart :=
  {| chart.Meta := {| chart.MetaName := "kubevirt";
                      chart.MetaVersion := EmptyString;
                      chart.MetaAppVersion := EmptyString;
                      chart.Description := EmptyString |};
     chart.Templates := [] |}.

(** Rewrites the kind of the document; no kind pattern of its own. *)
Definition ruleSetKind : Modification :=
  NewYqModification (".kind |= " +:+ quoted "Foo").

(** For documents of kind [Role]. *)
Definition ruleOnRole : Modification :=
  {| Expression := ".a |= " +:+ quoted "x";
     ValuesSelector := []; ModKind := "Role"; Reject := EmptyString |}.

(** For documents of kind [Foo]. *)
Definition ruleOnFoo : Modification :=
  {| Expression := ".b |= " +:+ quoted "y";
     ValuesSelector := []; ModKind := "Foo"; Reject := EmptyString |}.

(** Not for documents of kind [Foo]. *)
Definition ruleRejectFoo : Modification :=
  {| Expression := ".b |= " +:+ quoted "y";
     ValuesSelector := []; ModKind := EmptyString; Reject := "Foo" |}.

(** [docRole] after [ruleSetKind]. *)
Definition docFoo : gmap string value := <["kind" := VStr "Foo"]> docRole.

(** An expression that reads a key the document does not have: its result
    is null, which decodes to no document. *)
Definition ruleNoDocument : Modification := NewYqModification ".nothing".

End fixtures.


(** ** Further notions for the overlay

    [keepsValue v1 v2]: wherever [v1] holds a mapping and [v2] holds a value
    at the same place, that value is a mapping, too; merging [v2] over [v1]
    then never replaces a mapping by something else. *)
Fixpoint keepsValue (v1 v2 : value) {struct v2} : bool :=
  match v1 with
  | VMap first =>
      match v2 with
      | VMap second =>
          map_fold (λ k x2 acc,
                      acc && match first !! k with
                             | Some x1 => keepsValue x1 x2
                             | None => true
                             end) true second
      | _ => false
      end
  | _ => true
  end.

Definition keepsMappings (first second : gmap string value) : bool :=
  keepsValue (VMap first) (VMap second).

(** The value under a path of keys, as a template reads [.Values.a.b]. *)
Fixpoint valueAt (path : list string) (v : value) : option value :=
  match path with
  | [] => Some v
  | k :: path' =>
      match v with
      | VMap m => m !! k ≫= valueAt path'
      | _ => None
      end
  end.

(** ** Placeholder references

    The reference to the value path [p] as the rules write it, and the
    paths the pattern can capture: not empty, without white space and
    without closing brace. *)
Definition placeholder (p : string) : string := "{{ .Values." +:+ p +:+ " }}".

Definition isPathChar (c : ascii) : bool := negb (isSpace c || isCloseBrace c).

Definition validValuePath (p : string) : bool :=
  negb (bool_decide (p = EmptyString)) && semver.allChars isPathChar p.

(** Text in which no match of the pattern can start. *)
Definition braceFree (s : string) : bool :=
  semver.allChars (λ c, negb (N.eqb (N_of_ascii c) 123)) s.

(** ** Texts around a quoted template expression *)

Definition isQuote (c : ascii) : bool :=
  N.eqb (N_of_ascii c) 39 || N.eqb (N_of_ascii c) 34.

(** Text without single or double quote. *)
Definition quoteFree (s : string) : bool :=
  semver.allChars (λ c, negb (isQuote c)) s.

(** The inside of a template expression that ends at its first closing
    brace: no closing brace and no newline. *)
Definition plainBody (s : string) : bool :=
  semver.allChars (λ c, negb (isCloseBrace c || isNewline c)) s.

(** ** internal/common: ExtractYamls, NewManifests, ContainsCrds *)

(** [strings.HasPrefix]. *)
Definition HasPrefix (s p : string) : bool :=
  bool_decide (is_Some (stripPrefix p s)).

(** The YAML decoder over the bytes of an asset: the results of its
    successive [Decode] calls up to [io.EOF]. *)
Class YamlDecoder := { decodeStream : string → list (result (gmap string value)) }.

(** The loop of [ExtractYamls] over the decoder, [documents] being the
    documents appended so far. *)
Fixpoint extractFrom (stream : list (result (gmap string value)))
    (documents : list (gmap string value))
    : result (list (gmap string value)) :=
  match stream with
  | [] => Ok documents
  | Ok doc :: stream' => extractFrom stream' (documents ++ [doc])
  | Err e :: _ => Err e
  | Panic msg :: _ => Panic msg
  end.

Definition ExtractYamls `{YamlDecoder} (assetData : string)
    : result (list (gmap string value)) :=
  extractFrom (decodeStream assetData) [].

(** A schema-definition document: its kind starts with
    [CustomResourceDefinition]. *)
Definition isCrd (doc : gmap string value) : bool :=
  match kindOf doc with
  | Some kind => HasPrefix kind "CustomResourceDefinition"
  | None => false
  end.

(** [m.ContainsCrds()]. *)
Definition ContainsCrds (ms : Manifests) : bool :=
  bool_decide (0 < length (Crds ms)).

Section NewManifests.
Context `{YamlDecoder}.
(** The order in which [range *assetsData] visits the assets. *)
Context (assetOrder : gmap string string → list (string * string)).

(** The inner loop [for _, m := range *maps]. *)
Definition sortDocs (maps : list (gmap string value))
    (acc : list (gmap string value) * list (gmap string value))
    : list (gmap string value) * list (gmap string value) :=
  foldl (λ '(crds, docs) doc,
           if isCrd doc then (crds ++ [doc], docs) else (crds, docs ++ [doc]))
        acc maps.

(** The outer loop, over the assets in the order they are visited. *)
Fixpoint sortAssets (assets : list (string * string))
    (acc : list (gmap string value) * list (gmap string value))
    : result (list (gmap string value) * list (gmap string value)) :=
  match assets with
  | [] => Ok acc
  | (assetName, assetData) :: assets' =>
      maps ← ExtractYamls assetData;
      sortAssets assets' (sortDocs maps acc)
  end.

(** [version] is a [*semver.Version], dereferenced when the result is
    built. *)
Definition NewManifests (assetsData : gmap string string)
    (version : option semver.Version) (appVersion : string)
    (initialValues initialCrdValues : gmap string value) : result Manifests :=
  '(crds, docs) ← sortAssets (assetOrder assetsData) ([], []);
  match version with
  | None => Panic "nil pointer dereference"
  | Some v =>
      Ok {| Crds := crds; manifests := docs; Version := v;
            AppVersion := appVersion; Values := initialValues;
            CrdsValues := initialCrdValues |}
  end.

(** All the documents of the assets, in the order the assets are visited. *)
Definition allDocs (assets : list (string * string))
    : list (gmap string value) :=
  concat ((λ a, match ExtractYamls a.2 with
                | Ok maps => maps
                | _ => []
                end) <$> assets).
End NewManifests.

(** ** internal/updater/github: downloadAssets *)

(** [github.ReleaseAsset], as far as it is read. *)
Record ReleaseAsset := { assetName : string; assetID : Z }.

Section downloadAssets.
(** [downloadReleaseAsset], which calls the GitHub client. *)
Context (downloadReleaseAsset : ReleaseAsset → result string).

(** The loop [for _, asset := range releaseData.Assets]. *)
Fixpoint downloadInto (released : list ReleaseAsset)
    (assetsData : gmap string string) : result (gmap string string) :=
  match released with
  | [] => Ok assetsData
  | asset :: released' =>
      match assetsData !! assetName asset with
      | Some _ =>
          data ← downloadReleaseAsset asset;
          downloadInto released' (<[assetName asset := data]> assetsData)
      | None => downloadInto released' assetsData
      end
  end.

Definition downloadAssets (configured : list string)
    (released : list ReleaseAsset) : result (gmap string string) :=
  downloadInto released
    (foldl (λ acc asset, <[asset := EmptyString]> acc) ∅ configured).
End downloadAssets.

(** ** More stand-ins and concrete inputs *)
Module doubles2.

(** A decoder for texts that hold one kind per line: a line gives a
    document of that kind, and the line [!] a decoding error. *)
Definition lineDoc (line : string) : result (gmap string value) :=
  if bool_decide (line = "!") then Err "yaml: bad document"
  else Ok {[ "kind" := VStr line ]}.

#[export] Instance lineDecoder : YamlDecoder :=
  {| decodeStream data :=
       if bool_decide (data = EmptyString) then []
       else lineDoc <$> Split (ascii_of_nat 10) data |}.

Definition forwardAssets (t : gmap string string) : list (string * string) :=
  map_to_list t.

Definition reverseAssets (t : gmap string string) : list (string * string) :=
  reverse (map_to_list t).

Definition twoAssets : gmap string string :=
  {[ "operator.yaml" := "Role" +:+ nl +:+ "CustomResourceDefinition";
     "cr.yaml" := "KubeVirt" ]}.

Definition brokenAssets : gmap string string :=
  {[ "operator.yaml" := "Role" +:+ nl +:+ "!" ]}.

End doubles2.

(** * Properties *)

(** ** The document model *)

Lemma value_size_lookup (m : gmap string value) k x :
  m !! k = Some x → value_size x < value_size (VMap m).
Proof.
  intros Hk. simpl.
  rewrite (map_fold_delete_L _ _ k x m); [lia | intros; lia | done].
Qed.

(** Induction over the mappings nested inside a value. *)
Lemma value_nested_ind (P : value → Prop) :
  (∀ v, (∀ m k x, v = VMap m → m !! k = Some x → P x) → P v) →
  ∀ v, P v.
Proof.
  intros IH v.
  remember (value_size v) as n eqn:Hn. revert v Hn.
  induction n as [n IHn] using lt_wf_ind. intros v ->.
  apply IH. intros m k x -> Hk.
  eapply IHn; [by eapply value_size_lookup | done].
Qed.

(** ** DeepMerge *)

Lemma mergeEntry_insert k v2 out :
  mergeEntry DeepMergeValue k v2 out = <[k := mergeAt (out !! k) v2]> out.
Proof.
  unfold mergeEntry, mergeAt.
  destruct (out !! k) as [v1|]; [|done].
  by destruct (asMap v1), (asMap v2).
Qed.

(** The recursive call of the source: on two mappings, [DeepMergeValue] is
    [DeepMerge]. *)
Lemma DeepMergeValue_maps first second :
  DeepMergeValue (VMap first) (VMap second) = VMap (DeepMerge first second).
Proof. reflexivity. Qed.

Lemma DeepMergeIn_lookup l first k :
  NoDup l.*1 →
  DeepMergeIn l first !! k =
    match (list_to_map l : gmap string value) !! k with
    | Some v2 => Some (mergeAt (first !! k) v2)
    | None => first !! k
    end.
Proof.
  induction l as [|[k' v'] l IH]; intros Hnd; simpl.
  - by rewrite lookup_empty.
  - apply NoDup_cons in Hnd as [Hk' Hnd].
    rewrite mergeEntry_insert. fold (DeepMergeIn l first).
    destruct (decide (k' = k)) as [->|Hne].
    + rewrite !lookup_insert_eq, IH by done.
      by rewrite (not_elem_of_list_to_map_1 l k).
    + rewrite !lookup_insert_ne by done. by apply IH.
Qed.

Lemma DeepMerge_DeepMergeIn first second :
  DeepMerge first second = DeepMergeIn (map_to_list second) first.
Proof.
  unfold DeepMerge, DeepMergeIn. rewrite map_fold_foldr.
  by apply foldr_ext; [intros [] ?|..].
Qed.

(** The value of [DeepMerge first second] at every key. *)
Lemma DeepMerge_lookup first second k :
  DeepMerge first second !! k =
    match second !! k with
    | Some v2 => Some (mergeAt (first !! k) v2)
    | None => first !! k
    end.
Proof.
  rewrite DeepMerge_DeepMergeIn, DeepMergeIn_lookup
    by apply NoDup_fst_map_to_list.
  by rewrite list_to_map_to_list.
Qed.

(** The order in which [range] visits the entries of [second] does not
    matter. *)
Lemma DeepMergeIn_order l first second :
  l ≡ₚ map_to_list second → DeepMergeIn l first = DeepMerge first second.
Proof.
  intros Hl. apply map_eq; intros k.
  rewrite DeepMerge_lookup, DeepMergeIn_lookup.
  - by rewrite (list_to_map_proper l (map_to_list second)), list_to_map_to_list
      by (by rewrite ?Hl; try apply NoDup_fst_map_to_list).
  - rewrite Hl. apply NoDup_fst_map_to_list.
Qed.

Lemma DeepMerge_empty_r first : DeepMerge first ∅ = first.
Proof. apply map_eq; intros k. by rewrite DeepMerge_lookup, lookup_empty. Qed.

Lemma DeepMerge_empty_l second : DeepMerge ∅ second = second.
Proof.
  apply map_eq; intros k. rewrite DeepMerge_lookup, lookup_empty.
  by destruct (second !! k).
Qed.

Lemma DeepMergeValue_idempotent v : DeepMergeValue v v = v.
Proof.
  induction v as [v IH] using value_nested_ind.
  destruct v as [| | | | |m]; try done.
  rewrite DeepMergeValue_maps. f_equal. apply map_eq; intros k.
  rewrite DeepMerge_lookup. destruct (m !! k) as [x|] eqn:Hk; [|done].
  simpl. destruct (asMap x); [|done]. f_equal. by eapply IH.
Qed.

(** C1. For all mappings [a] and [b], [c = DeepMerge a b] has, at every key
    [k] of [b], the recursive merge of [a[k]] and [b[k]] when both are
    mappings and [b[k]] otherwise (whatever the type of either side: there is
    no error case), and at every other key the value of [a], unchanged. *)
Theorem DeepMerge_spec (a b : gmap string value) :
  let c := DeepMerge a b in
  (∀ k v2, b !! k = Some v2 →
     match a !! k, v2 with
     | Some (VMap m1), VMap m2 => c !! k = Some (VMap (DeepMerge m1 m2))
     | _, _ => c !! k = Some v2
     end)
  ∧ (∀ k, b !! k = None → c !! k = a !! k).
Proof.
  intros c; subst c. split.
  - intros k v2 Hb. rewrite DeepMerge_lookup, Hb.
    destruct (a !! k) as [[| | | | |m1]|]; try done.
    by destruct v2.
  - intros k Hb. by rewrite DeepMerge_lookup, Hb.
Qed.

(** C9. [DeepMerge] is idempotent, [DeepMerge a a = a], and right-biased: at
    a key [k] of [b], the result holds [b[k]] itself unless [a[k]] and [b[k]]
    are both mappings. *)
Theorem DeepMerge_idempotent_right_biased :
  (∀ a : gmap string value, DeepMerge a a = a)
  ∧ (∀ (a b : gmap string value) k v2,
       b !! k = Some v2 →
       ¬ (∃ m1 m2, a !! k = Some (VMap m1) ∧ v2 = VMap m2) →
       DeepMerge a b !! k = Some v2).
Proof.
  split.
  - intros a. pose proof (DeepMergeValue_idempotent (VMap a)) as H.
    rewrite DeepMergeValue_maps in H. by injection H.
  - intros a b k v2 Hb Hnot. rewrite DeepMerge_lookup, Hb. f_equal.
    destruct (a !! k) as [[| | | | |m1]|]; try done.
    destruct v2 as [| | | | |m2]; try done.
    destruct Hnot; eauto.
Qed.

(** ** ValuesRegex *)

Example FindAll_ex1 :
  FindAllStringSubmatch
    (".spec.configuration |= " +:+ dq +:+ "{{ .Values.kubevirt.configuration }}" +:+ dq)
  = [["{{ .Values.kubevirt.configuration }}"; "kubevirt.configuration"]].
Proof. vm_compute. reflexivity. Qed.

Example FindAll_ex2 :
  FindAllStringSubmatch "a {{.Values.x}} b {{ .Release.Namespace }} c {{  .Values.y.z | quote }}}"
  = [["{{.Values.x}}"; "x"]; ["{{  .Values.y.z | quote }}"; "y.z"]].
Proof. vm_compute. reflexivity. Qed.

Example Split_ex :
  Split "." "a.b." = ["a"; "b"; EmptyString] ∧ Split "." EmptyString = [EmptyString].
Proof. split; reflexivity. Qed.

(** ** The version library *)

Example NewVersion_ex :
  semver.String <$> semver.NewVersion "v1.2" = Ok "1.2.0"
  ∧ semver.String <$> semver.NewVersion "1.2.3-rc.1+build.5" = Ok "1.2.3-rc.1+build.5"
  ∧ semver.NewVersion "not-semver" = Err semver.ErrInvalidSemVer
  ∧ semver.NewVersion "1.2.3.4" = Err semver.ErrInvalidSemVer
  ∧ semver.NewVersion "1.2.3-01" = Err semver.ErrSegmentStartsZero.
Proof. vm_compute. done. Qed.

(** ** FilterManifests *)

Section filter_facts.
Context `{Strings}.

Lemma deniedKinds_from (acc : gmap string bool) deny k :
  default false
    (foldl (λ acc filter, <[ToLower filter := true]> acc) acc deny !! k) = true
  ↔ default false (acc !! k) = true ∨ Exists (λ f, ToLower f = k) deny.
Proof.
  revert acc. induction deny as [|f deny IH]; intros acc; simpl.
  - rewrite Exists_nil. tauto.
  - rewrite IH, Exists_cons. destruct (decide (ToLower f = k)) as [->|Hne].
    + rewrite lookup_insert_eq. simpl. tauto.
    + rewrite lookup_insert_ne by done. tauto.
Qed.

Lemma isDenied_excluded deny doc :
  isDenied (deniedKinds deny) doc = true ↔ excluded deny doc.
Proof.
  unfold isDenied, excluded, deniedKinds.
  destruct (kindOf doc) as [kind|]; [|done].
  rewrite deniedKinds_from, lookup_empty. simpl.
  unfold sameKind. split.
  - intros [?|Hex]; [done|]. eapply Exists_impl; [done|]. by intros ? ->.
  - intros Hex. right. eapply Exists_impl; [done|]. by intros ? ->.
Qed.

Lemma filter_loop deny acc docs :
  foldl (λ acc doc,
           if isDenied (deniedKinds deny) doc then acc else (acc ++ [doc])%list)
        acc docs
  = (acc ++ filter (λ d, ¬ excluded deny d) docs)%list.
Proof.
  revert acc. induction docs as [|d docs IH]; intros acc; simpl.
  - by rewrite app_nil_r.
  - rewrite IH, filter_cons.
    destruct (isDenied (deniedKinds deny) d) eqn:Hd.
    + apply isDenied_excluded in Hd. by rewrite decide_False by tauto.
    + rewrite decide_True; [by rewrite <-app_assoc|].
      rewrite <-isDenied_excluded. congruence.
Qed.

Lemma FilterManifests_filter ms deny :
  manifests (FilterManifests ms deny)
  = filter (λ d, ¬ excluded deny d) (manifests ms).
Proof. unfold FilterManifests. simpl. by rewrite filter_loop. Qed.

(** C4. [FilterManifests] drops exactly the documents whose kind, compared
    without regard to case, is in the exclusion list: the output is the
    input with those documents removed, the others in their input order,
    and its length is the input length minus the number of excluded
    documents. *)
Theorem FilterManifests_exact (ms : Manifests) (deny : list string) :
  let out := manifests (FilterManifests ms deny) in
  (∀ d, d ∈ out ↔ d ∈ manifests ms ∧ ¬ excluded deny d)
  ∧ out = filter (λ d, ¬ excluded deny d) (manifests ms)
  ∧ out `sublist_of` manifests ms
  ∧ length out
    = length (manifests ms) - length (filter (excluded deny) (manifests ms)).
Proof.
  intros out. subst out. rewrite FilterManifests_filter.
  split_and!.
  - intros d. rewrite list_elem_of_filter. tauto.
  - done.
  - apply sublist_filter.
  - pose proof (filter_app_complement (excluded deny) (manifests ms)) as Hp.
    apply Permutation_length in Hp. rewrite length_app in Hp. lia.
Qed.

(** C10. [FilterManifests] changes the ordinary-manifest list only: the
    schema-definition documents, the versions and both value overlays are
    those of the input; and a document without a kind, or whose kind is
    not a string, is kept whatever the exclusion list. *)
Theorem FilterManifests_frame (ms : Manifests) (deny : list string) :
  let out := FilterManifests ms deny in
  Crds out = Crds ms
  ∧ Version out = Version ms
  ∧ AppVersion out = AppVersion ms
  ∧ Values out = Values ms
  ∧ CrdsValues out = CrdsValues ms
  ∧ (∀ d, d ∈ manifests ms →
       (d !! Kind = None ∨ ∃ v, d !! Kind = Some v ∧ asString v = None) →
       d ∈ manifests out)
  ∧ filter (λ d, kindOf d = None) (manifests out)
    = filter (λ d, kindOf d = None) (manifests ms).
Proof.
  intros out. subst out. split_and!; try done.
  - intros d Hd Hk. rewrite FilterManifests_filter, list_elem_of_filter.
    split; [|done]. unfold excluded, kindOf.
    destruct Hk as [->|(v & -> & Hv)]; simpl; [tauto|].
    rewrite Hv. tauto.
  - rewrite FilterManifests_filter, list_filter_filter.
    apply list_filter_iff. intros d. unfold excluded.
    destruct (kindOf d); [|tauto]. split; [tauto|done].
Qed.

End filter_facts.

(** ** takeNewerVersion *)

Lemma compareSegment_refl n : semver.compareSegment n n = 0%Z.
Proof.
  unfold semver.compareSegment.
  rewrite N.ltb_irrefl.
  reflexivity.
Qed.

Lemma comparePrePart_refl s : semver.comparePrePart s s = 0%Z.
Proof. unfold semver.comparePrePart. by rewrite bool_decide_true. Qed.

Lemma comparePartsFrom_refl n i parts :
  semver.comparePartsFrom n i parts parts = 0%Z.
Proof.
  revert i. induction n as [|n IH]; intros i; simpl; [done|].
  rewrite comparePrePart_refl. apply IH.
Qed.

(** A version is never older than itself. *)
Lemma Compare_refl v : semver.Compare v v = 0%Z.
Proof.
  unfold semver.Compare. rewrite !compareSegment_refl. simpl.
  destruct (bool_decide (semver.pre v = EmptyString)); [done|]. simpl.
  apply comparePartsFrom_refl.
Qed.

(** The parser of the library returns or fails; it does not panic. *)
Lemma NewVersion_total s : ¬ isPanic (semver.NewVersion s).
Proof.
  intros [msg Hp]. unfold semver.NewVersion in Hp.
  repeat match type of Hp with
         | context [let '(_, _) := ?x in _] => destruct x
         end.
  destruct (_ || _); [done|].
  unfold semver.segment, semver.ParseUint, semver.validatePrerelease in Hp.
  repeat match type of Hp with
         | context [if ?b then _ else _] => destruct b; simpl in Hp; try done
         end.
Qed.

(** C2 (as the code has it). With a valid existing version [e]: an
    unparsable remote tag gives back [e], without error; a remote version
    older than [e] gives back [e]; a remote version newer than [e], or equal
    to it in precedence, gives back the remote version.  The result never
    precedes the existing version.  The three resolutions the design lists
    come out as it says. *)
Theorem takeNewerVersion_spec :
  (∀ (existingVersion remoteVersion : string) (e : semver.Version),
     semver.NewVersion existingVersion = Ok e →
     ∃ v, takeNewerVersion existingVersion remoteVersion = Ok (Some v)
          ∧ (0 ≤ semver.Compare v e)%Z
          ∧ match semver.NewVersion remoteVersion with
            | Ok r =>
                ((semver.Compare r e < 0)%Z → v = e)
                ∧ ((0 < semver.Compare r e)%Z → v = r)
                ∧ (semver.Compare r e = 0%Z → v = r)
            | _ => v = e
            end)
  ∧ resolveVersion "1.2.0" "1.3.0" = Ok (Some "1.3.0")
  ∧ resolveVersion "1.2.0" "not-semver" = Ok (Some "1.2.0")
  ∧ resolveVersion "2.0.0" "1.9.0" = Ok (Some "2.0.0").
Proof.
  split; [|by vm_compute].
  intros existingVersion remoteVersion e He.
  unfold takeNewerVersion. rewrite He.
  destruct (semver.NewVersion remoteVersion) as [r|err|msg] eqn:Hr.
  - destruct (Z.ltb_spec (semver.Compare r e) 0).
    + exists e. rewrite Compare_refl. split_and!; [done|done|done|lia|lia].
    + exists r. split_and!; [done|done|lia|done|done].
  - exists e. by rewrite Compare_refl.
  - destruct (NewVersion_total remoteVersion). rewrite Hr. by eexists.
Qed.

Lemma takeNewerVersion_spec_witness :
  let e := {| semver.major := 1; semver.minor := 2; semver.patch := 0;
              semver.pre := EmptyString; semver.metadata := EmptyString;
              semver.original := "1.2.0" |} in
  semver.NewVersion "1.2.0" = Ok e
  ∧ ∃ v, takeNewerVersion "1.2.0" "1.3.0" = Ok (Some v)
         ∧ (0 ≤ semver.Compare v e)%Z.
Proof.
  intros e.
  assert (He : semver.NewVersion "1.2.0" = Ok e) by (vm_compute; reflexivity).
  split; [exact He|].
  destruct (proj1 takeNewerVersion_spec "1.2.0" "1.3.0" e He)
    as (v & Hv & Hge & _).
  exists v. split; [exact Hv|exact Hge].
Defined.

(** C2, the tie. The existing version 1.2.0 and the remote tag 1.2.0+build.5
    have equal precedence, and the resolver returns the remote one, which is
    not the existing version and does not print like it. *)
Lemma takeNewerVersion_tie_takes_remote :
  let e := {| semver.major := 1; semver.minor := 2; semver.patch := 0;
              semver.pre := EmptyString; semver.metadata := EmptyString;
              semver.original := "1.2.0" |} in
  let r := {| semver.major := 1; semver.minor := 2; semver.patch := 0;
              semver.pre := EmptyString; semver.metadata := "build.5";
              semver.original := "1.2.0+build.5" |} in
  semver.NewVersion "1.2.0" = Ok e
  ∧ semver.NewVersion "1.2.0+build.5" = Ok r
  ∧ semver.Compare r e = 0%Z
  ∧ takeNewerVersion "1.2.0" "1.2.0+build.5" = Ok (Some r)
  ∧ takeNewerVersion "1.2.0" "1.2.0+build.5" ≠ Ok (Some e)
  ∧ semver.String r = "1.2.0+build.5"
  ∧ semver.String e = "1.2.0".
Proof. vm_compute. split_and!; done. Qed.

(** ** The rule engine *)

Section engine_facts.
Context `{Strings} `{Regexp} (m : modifier).

Lemma applyLoop_app manifest st pre post :
  applyLoop m manifest st (pre ++ post)
  = (st' ← applyLoop m manifest st pre; applyLoop m manifest st' post).
Proof.
  revert st. induction pre as [|md pre IH]; intros st; simpl; [done|].
  destruct (applyModification m manifest st md); simpl; auto.
Qed.

(** Rule application with an empty rule list returns the document unchanged
    and an empty overlay. *)
Lemma applyModifications_nil manifest cand :
  decode m manifest = Ok cand →
  applyModifications m manifest [] = Ok (manifest, ∅).
Proof. intros Hc. unfold applyModifications. by rewrite Hc. Qed.

Lemma kindGate_mismatch manifest md :
  kindMismatch manifest md → kindGate manifest md = Ok false.
Proof.
  intros (Hk & rc & Hrc & Hm). unfold kindGate.
  rewrite (bool_decide_true _ Hk), Hrc. simpl.
  destruct (kindOf manifest); [by rewrite Hm|done].
Qed.

Lemma kindGate_reject manifest md :
  rejectMatch manifest md → kindGate manifest md = Ok false.
Proof.
  intros (Hr & Hk & rc & kind & Hrc & Hkind & Hm). unfold kindGate.
  rewrite Hkind, (bool_decide_true _ Hr), Hrc. simpl. rewrite Hm. simpl.
  destruct (decide (ModKind md = EmptyString)) as [Heq|Hne].
  - rewrite bool_decide_false by (by intros []). done.
  - rewrite (bool_decide_true _ Hne).
    destruct Hk as [?|[rc' Hrc']]; [done|]. rewrite Hrc'. simpl.
    by destruct (MatchString rc' kind).
Qed.

Lemma kindGate_malformed manifest md e :
  ModKind md ≠ EmptyString → Compile (ModKind md) = Err e →
  kindGate manifest md = Err e.
Proof.
  intros Hk He. unfold kindGate. by rewrite (bool_decide_true _ Hk), He.
Qed.

(** The reject pattern is compiled only once the kind pattern has let the
    document through: a rule without kind pattern and with a reject pattern
    that does not compile fails, too. *)
Lemma kindGate_malformed_reject manifest md e :
  ModKind md = EmptyString →
  Reject md ≠ EmptyString → Compile (Reject md) = Err e →
  kindGate manifest md = Err e.
Proof.
  intros Hk Hr He. unfold kindGate. rewrite Hk. simpl.
  by rewrite (bool_decide_true _ Hr), He.
Qed.

(** C5 (as the code has it). The kind the patterns are tested on is that
    of [manifest], the document as it is given to [applyModifications],
    whatever the rules before have made of its kind.  A rule whose kind
    pattern does not match that kind, or whose reject pattern matches it,
    leaves the loop state as it is (no mutation, nothing extracted) and the
    rules after it run as if it were not there; a rule that is reached with
    a kind pattern that does not compile makes the whole application fail
    with the compile error. *)
Theorem kind_gate_skips_or_fails (manifest : gmap string value)
    (md : Modification) :
  (kindMismatch manifest md ∨ rejectMatch manifest md →
     (∀ st, applyModification m manifest st md = Ok st)
     ∧ (∀ pre post,
          applyModifications m manifest (pre ++ md :: post)
          = applyModifications m manifest (pre ++ post)))
  ∧ (∀ e, ModKind md ≠ EmptyString → Compile (ModKind md) = Err e →
       (∀ st, applyModification m manifest st md = Err e)
       ∧ (∀ pre post cand st,
            decode m manifest = Ok cand →
            applyLoop m manifest (initialState m manifest cand) pre = Ok st →
            applyModifications m manifest (pre ++ md :: post) = Err e)).
Proof.
  split.
  - intros Hskip.
    assert (Hst : ∀ st, applyModification m manifest st md = Ok st).
    { intros st. unfold applyModification.
      by destruct Hskip as [Hs|Hs];
        [rewrite kindGate_mismatch|rewrite kindGate_reject]. }
    split; [done|]. intros pre post. unfold applyModifications.
    destruct (decode m manifest) as [cand| |]; simpl; [|done..].
    rewrite !applyLoop_app.
    destruct (applyLoop m manifest _ pre) as [st| |]; simpl; [|done..].
    by rewrite Hst.
  - intros e Hk He.
    assert (Hst : ∀ st, applyModification m manifest st md = Err e).
    { intros st. unfold applyModification.
      by rewrite (kindGate_malformed _ _ e). }
    split; [done|]. intros pre post cand st Hcand Hpre.
    unfold applyModifications. rewrite Hcand. simpl.
    rewrite applyLoop_app, Hpre. simpl. by rewrite Hst.
Qed.

(** *** ParametrizeManifests *)

Lemma parametrizeAll_ok docs mods modified extracted :
  isOk (parametrizeAll m docs mods modified extracted) →
  Forall (λ d, isOk (applyModifications m d mods)) docs.
Proof.
  revert modified extracted.
  induction docs as [|d docs IH]; intros modified extracted Hok; simpl in *.
  - constructor.
  - destruct (applyModifications m d mods) as [[d' v]| |] eqn:Hd; simpl in Hok.
    + constructor; [by eexists|]. by eapply IH.
    + by destruct Hok.
    + by destruct Hok.
Qed.

Lemma parametrizeAll_no_panic docs mods modified extracted :
  Forall (λ d, ¬ isPanic (applyModifications m d mods)) docs →
  ¬ isPanic (parametrizeAll m docs mods modified extracted).
Proof.
  revert modified extracted.
  induction docs as [|d docs IH]; intros modified extracted Hall; simpl.
  - by intros [].
  - apply Forall_cons in Hall as [Hd Hall].
    destruct (applyModifications m d mods) as [[d' v]|e|msg]; simpl.
    + by apply IH.
    + by intros [].
    + destruct Hd. by eexists.
Qed.

Lemma ParametrizeManifests_ok ms mods :
  isOk (ParametrizeManifests m ms mods) →
  Forall (λ d, isOk (applyModifications m d mods))
         (manifests ms ++ Crds ms)%list.
Proof.
  unfold ParametrizeManifests. intros Hok. apply Forall_app.
  destruct (parametrizeAll m (manifests ms) mods [] (Values ms))
    as [[ds vs]| |] eqn:H1; simpl in Hok; [|by destruct Hok..].
  split; [eapply parametrizeAll_ok; rewrite H1; by eexists|].
  destruct (parametrizeAll m (Crds ms) mods [] (CrdsValues ms))
    as [[cs cvs]| |] eqn:H2; simpl in Hok; [|by destruct Hok..].
  eapply parametrizeAll_ok. rewrite H2. by eexists.
Qed.

Lemma ParametrizeManifests_no_panic ms mods :
  Forall (λ d, ¬ isPanic (applyModifications m d mods))
         (manifests ms ++ Crds ms)%list →
  ¬ isPanic (ParametrizeManifests m ms mods).
Proof.
  intros [H1 H2]%Forall_app. unfold ParametrizeManifests.
  pose proof (parametrizeAll_no_panic _ mods [] (Values ms) H1) as Hn1.
  pose proof (parametrizeAll_no_panic _ mods [] (CrdsValues ms) H2) as Hn2.
  destruct (parametrizeAll m (manifests ms) mods [] (Values ms))
    as [[ds vs]| |]; simpl; [|by intros []|destruct Hn1; by eexists].
  destruct (parametrizeAll m (Crds ms) mods [] (CrdsValues ms))
    as [[cs cvs]| |]; simpl;
    [by intros []|by intros []|destruct Hn2; by eexists].
Qed.

Lemma result_cases {A} (r : result A) : isOk r ∨ isErr r ∨ isPanic r.
Proof. destruct r; [left|right; left|right; right]; by eexists. Qed.

(** X24. When the application of the rules to some document of the set,
    ordinary or schema-definition, does not succeed, [ParametrizeManifests]
    returns no manifest set at all; unless some application panics, it
    returns an error. *)
Theorem ParametrizeManifests_atomic (ms : Manifests)
    (mods : list Modification) (d : gmap string value) :
  d ∈ (manifests ms ++ Crds ms)%list →
  ¬ isOk (applyModifications m d mods) →
  ¬ isOk (ParametrizeManifests m ms mods)
  ∧ ((∀ d', d' ∈ (manifests ms ++ Crds ms)%list →
            ¬ isPanic (applyModifications m d' mods)) →
     isErr (ParametrizeManifests m ms mods)).
Proof.
  intros Hd Hfail.
  assert (Hnok : ¬ isOk (ParametrizeManifests m ms mods)).
  { intros Hok%ParametrizeManifests_ok.
    rewrite Forall_forall in Hok. by apply Hfail, Hok. }
  split; [done|]. intros Hnp.
  destruct (result_cases (ParametrizeManifests m ms mods)) as [?|[?|Hp]];
    [done|done|].
  exfalso. revert Hp. apply ParametrizeManifests_no_panic.
  by apply Forall_forall.
Qed.

(** *** wrapResult and the selector loop *)

Lemma extractValues_app expression matches i pre post cand extracted :
  extractValues m expression matches i (pre ++ post) cand extracted
  = ('(c, e) ← extractValues m expression matches i pre cand extracted;
     extractValues m expression matches (i + length pre) post c e).
Proof.
  revert i cand extracted.
  induction pre as [|sel pre IH]; intros i cand extracted; simpl.
  - by rewrite Nat.add_0_r.
  - destruct (EvaluateNodes m sel cand) as [[vals cand']| |]; simpl; [|done..].
    case_bool_decide; [|done].
    destruct (matches !! i) as [mi|]; [|done].
    destruct (mi !! 1) as [underPath|]; [|done].
    destruct (wrapResult m vals underPath); simpl; [|done..].
    rewrite IH. by replace (S i + length pre) with (i + S (length pre)) by lia.
Qed.

(** C7. When the one matched subtree decodes to null, [wrapResult] returns
    the empty mapping, and the selector loop goes on with the extracted
    values as they were: nothing, and so no null, is stored for that
    extraction. *)
Theorem wrapResult_null_is_empty (res : list (node m)) (underPath : string) :
  length res = 1 →
  resultToAny m res = Ok VNull →
  wrapResult m res underPath = Ok ∅
  ∧ ∀ expression matches i whole sel sels cand cand' extracted,
      EvaluateNodes m sel cand = Ok (res, cand') →
      matches !! i = Some [whole; underPath] →
      extractValues m expression matches i (sel :: sels) cand extracted
      = extractValues m expression matches (S i) sels cand' extracted.
Proof.
  intros Hlen Hnull.
  assert (Hw : wrapResult m res underPath = Ok ∅).
  { unfold wrapResult. rewrite bool_decide_false by (rewrite Hlen; lia).
    by rewrite Hnull. }
  split; [done|].
  intros expression matches i whole sel sels cand cand' extracted Hev Hi.
  simpl. rewrite Hev. simpl.
  rewrite bool_decide_true by (apply lookup_lt_Some in Hi; lia).
  rewrite Hi. simpl. rewrite Hw. simpl. by rewrite DeepMerge_empty_r.
Qed.

Lemma matchValuesAt_shape s mi :
  matchValuesAt s = Some mi → ∃ whole group, mi = [whole; group].
Proof.
  unfold matchValuesAt, mbind, option_bind. intros Hm.
  destruct (stripPrefix "{{" s) as [s1|]; [|done].
  destruct (stripPrefix ".Values." (dropSpaces s1)) as [s2|]; [|done].
  destruct (spanValuePath s2) as [g s3].
  case_bool_decide; [done|].
  destruct (findClose s3); [|done].
  injection Hm as <-. by eexists _, _.
Qed.

(** Every submatch slice holds the whole match and the one group. *)
Lemma FindAllStringSubmatch_shape s mi :
  mi ∈ FindAllStringSubmatch s → ∃ whole group, mi = [whole; group].
Proof.
  unfold FindAllStringSubmatch. generalize 0 as skip.
  induction s as [|c s IH]; intros skip; simpl.
  - by intros ?%elem_of_nil.
  - destruct skip as [|n]; [|by apply IH].
    destruct (matchValuesAt (String c s)) as [mi'|] eqn:Hm; [|by apply IH].
    intros [->|Hin]%elem_of_cons; [by eapply matchValuesAt_shape|].
    by eapply IH.
Qed.

Lemma extractValues_surplus expression matches extra i sels cand extracted :
  i + length sels ≤ length matches →
  extractValues m expression (matches ++ extra) i sels cand extracted
  = extractValues m expression matches i sels cand extracted.
Proof.
  revert i cand extracted.
  induction sels as [|sel sels IH]; intros i cand extracted Hlen; simpl in *;
    [done|].
  destruct (EvaluateNodes m sel cand) as [[vals cand']| |]; simpl; [|done..].
  rewrite !bool_decide_true by (rewrite ?length_app; lia).
  rewrite lookup_app_l by lia.
  destruct (matches !! i) as [mi|]; [|done].
  destruct (mi !! 1) as [underPath|]; [|done].
  destruct (wrapResult m vals underPath); simpl; [|done..].
  apply IH. lia.
Qed.

(** C3 (as the code has it). For a rule that passes the kind gate: with
    selectors and no placeholder reference in the expression the rule fails
    with the error of a missing value path; the selector at position [i] is
    paired with the placeholder reference at position [i], and fails with
    the error of a result that is not exactly one element when its
    evaluation gives none or several; placeholder references beyond the
    number of selectors are passed over without error. *)
Theorem selectors_and_placeholders (manifest : gmap string value)
    (md : Modification) (st : loopState m) :
  kindGate manifest md = Ok true →
  (∀ sel sels r,
     ValuesSelector md = sel :: sels →
     FindAllStringSubmatch (Expression md) = [] →
     EvaluateNodes m sel (candidNode m st) = Ok r →
     applyModification m manifest st md
     = Err ("no value path found in expression '" +:+ Expression md +:+ "'"))
  ∧ (∀ pre sel post cand extracted vals cand',
       ValuesSelector md = (pre ++ sel :: post)%list →
       length pre < length (FindAllStringSubmatch (Expression md)) →
       extractValues m (Expression md)
         (FindAllStringSubmatch (Expression md)) 0 pre
         (candidNode m st) (extractedValues m st) = Ok (cand, extracted) →
       EvaluateNodes m sel cand = Ok (vals, cand') →
       (length vals ≠ 1 →
        applyModification m manifest st md
        = Err "yq result does not contain exactly one element")
       ∧ ∃ whole underPath,
           FindAllStringSubmatch (Expression md) !! length pre
           = Some [whole; underPath]
           ∧ extractValues m (Expression md)
               (FindAllStringSubmatch (Expression md)) 0
               (pre ++ sel :: post) (candidNode m st) (extractedValues m st)
             = (valuesMap ← wrapResult m vals underPath;
                extractValues m (Expression md)
                  (FindAllStringSubmatch (Expression md))
                  (S (length pre)) post cand'
                  (DeepMerge extracted valuesMap)))
  ∧ (∀ matches extra sels cand extracted,
       length sels ≤ length matches →
       extractValues m (Expression md) (matches ++ extra) 0 sels cand extracted
       = extractValues m (Expression md) matches 0 sels cand extracted).
Proof.
  intros Hgate. split_and!.
  - intros sel sels r Hsels Hnone Hev. unfold applyModification.
    rewrite Hgate, Hsels, Hnone. simpl. rewrite Hev. by destruct r.
  - intros pre sel post cand extracted vals cand' Hsels Hlt Hpre Hev.
    destruct (lookup_lt_is_Some_2 _ _ Hlt) as [mi Hmi].
    destruct (FindAllStringSubmatch_shape (Expression md) mi)
      as (whole & underPath & ->); [by eapply list_elem_of_lookup_2|].
    assert (Hstep :
      extractValues m (Expression md)
        (FindAllStringSubmatch (Expression md)) 0
        (pre ++ sel :: post) (candidNode m st) (extractedValues m st)
      = (valuesMap ← wrapResult m vals underPath;
         extractValues m (Expression md)
           (FindAllStringSubmatch (Expression md))
           (S (length pre)) post cand' (DeepMerge extracted valuesMap))).
    { rewrite extractValues_app, Hpre. simpl. rewrite Hev. simpl.
      rewrite bool_decide_true by lia. by rewrite Hmi. }
    split; [|by eexists _, _].
    intros Hvals. unfold applyModification.
    rewrite Hgate, Hsels. simpl. rewrite Hstep.
    unfold wrapResult. by rewrite bool_decide_true.
  - intros matches extra sels cand extracted Hlen.
    by apply extractValues_surplus.
Qed.

End engine_facts.

(** ** The rule engine on concrete documents *)

Section engine_runs.
Import doubles fixtures.

(** The rules of the test suite on a KubeVirt document: each rule sees the
    assignments of the rules before it, the configuration moves to the
    values, and the null subtree adds nothing to them. *)
Example applyModifications_kubevirt :
  applyModifications miniYq docKubeVirt [ruleNamespace; ruleKubeVirt; ruleNullValue]
  = Ok ({[ "kind" := VStr "KubeVirt";
           "metadata" := VMap {[ "namespace" := VStr "{{ .Release.Namespace }}" ]};
           "spec" := VMap {[
             "configuration" := VStr "{{ .Values.kubevirt.configuration }}";
             "customizeComponents" :=
               VStr "{{ .Values.kubevirt.customizeComponents }}" ]} ]},
        {[ "kubevirt" := VMap {[ "configuration" := VMap {[ "x" := VInt 1 ]} ]} ]}).
Proof. vm_compute. reflexivity. Qed.

(** C3, the count mismatch. With two placeholder references and one
    selector the rule is applied and the application succeeds; with one
    placeholder reference and two selectors the application panics.
    Neither returns an error. *)
Lemma count_mismatch_is_no_error :
  length (FindAllStringSubmatch (Expression ruleSurplus)) = 2
  ∧ length (ValuesSelector ruleSurplus) = 1
  ∧ applyModifications miniYq docRole [ruleSurplus]
    = Ok ({[ "kind" := VStr "Role";
             "a" := VStr "{{ .Values.x }} {{ .Values.y }}";
             "b" := VInt 2 ]},
          {[ "x" := VInt 1 ]})
  ∧ length (FindAllStringSubmatch (Expression ruleShort)) = 1
  ∧ length (ValuesSelector ruleShort) = 2
  ∧ applyModifications miniYq docRole [ruleShort] = Panic "index out of range".
Proof. vm_compute. split_and!; reflexivity. Qed.

Lemma selectors_and_placeholders_witness :
  kindGate docRole ruleNoPlaceholder = Ok true
  ∧ applyModification miniYq docRole
      (initialState miniYq docRole (VMap docRole)) ruleNoPlaceholder
    = Err ("no value path found in expression '"
           +:+ Expression ruleNoPlaceholder +:+ "'").
Proof.
  assert (Hgate : kindGate docRole ruleNoPlaceholder = Ok true)
    by (vm_compute; reflexivity).
  split; [exact Hgate|].
  destruct (selectors_and_placeholders miniYq docRole ruleNoPlaceholder
              (initialState miniYq docRole (VMap docRole)) Hgate)
    as [Hnone _].
  eapply (Hnone ".a" []); vm_compute; reflexivity.
Defined.

Lemma kind_gate_skips_or_fails_witness :
  kindMismatch docRole ruleKubeVirt
  ∧ applyModifications miniYq docRole ([ruleNamespace] ++ ruleKubeVirt :: [])
    = applyModifications miniYq docRole ([ruleNamespace] ++ [])
  ∧ applyModifications miniYq docRole ([ruleNamespace] ++ ruleMalformed :: [])
    = Err "error parsing regexp".
Proof.
  assert (Hmis : kindMismatch docRole ruleKubeVirt).
  { split; [done|]. exists "KubeVirt". split; vm_compute; reflexivity. }
  split; [exact Hmis|]. split.
  - destruct (kind_gate_skips_or_fails miniYq docRole ruleKubeVirt)
      as [Hskip _].
    destruct (Hskip (or_introl Hmis)) as [_ Hlist]. apply Hlist.
  - destruct (kind_gate_skips_or_fails miniYq docRole ruleMalformed)
      as [_ Hbad].
    destruct (Hbad "error parsing regexp") as [_ Hlist];
      [done|vm_compute; reflexivity|].
    eapply Hlist; vm_compute; reflexivity.
Defined.

Lemma ParametrizeManifests_atomic_witness :
  docRole ∈ (manifests (release [docKubeVirt; docRole] [])
             ++ Crds (release [docKubeVirt; docRole] []))
  ∧ ¬ isOk (applyModifications miniYq docRole [ruleNoPlaceholder])
  ∧ ¬ isOk (ParametrizeManifests miniYq (release [docKubeVirt; docRole] [])
              [ruleNoPlaceholder]).
Proof.
  assert (Hin : docRole ∈ (manifests (release [docKubeVirt; docRole] [])
                           ++ Crds (release [docKubeVirt; docRole] []))).
  { simpl. apply elem_of_cons. right. apply elem_of_cons. by left. }
  assert (Hfail : ¬ isOk (applyModifications miniYq docRole [ruleNoPlaceholder])).
  { intros [r Hr]. vm_compute in Hr. discriminate Hr. }
  split; [exact Hin|]. split; [exact Hfail|].
  exact (proj1 (ParametrizeManifests_atomic miniYq _ _ _ Hin Hfail)).
Defined.

(** C5, the kind that is tested. The first rule turns the kind of a [Role]
    document into [Foo].  The second rule is for the kind [Role], which the
    current document no longer has: it is applied all the same, and sets
    [a].  A rule for the kind [Foo], which the current document has, is
    skipped, and a rule that rejects [Foo] is applied. *)
Lemma kind_gate_tests_input_kind :
  applyModifications miniYq docRole [ruleSetKind] = Ok (docFoo, ∅)
  ∧ kindOf docFoo = Some "Foo"
  ∧ kindMismatch docFoo ruleOnRole
  ∧ applyModifications miniYq docRole [ruleSetKind; ruleOnRole]
    = Ok (<["a" := VStr "x"]> docFoo, ∅)
  ∧ <["a" := VStr "x"]> docFoo ≠ docFoo
  ∧ ¬ kindMismatch docFoo ruleOnFoo
  ∧ applyModifications miniYq docRole [ruleSetKind; ruleOnFoo]
    = Ok (docFoo, ∅)
  ∧ rejectMatch docFoo ruleRejectFoo
  ∧ applyModifications miniYq docRole [ruleSetKind; ruleRejectFoo]
    = Ok (<["b" := VStr "y"]> docFoo, ∅)
  ∧ <["b" := VStr "y"]> docFoo ≠ docFoo.
Proof.
  split_and!.
  - vm_compute. reflexivity.
  - vm_compute. reflexivity.
  - split; [done|]. exists "Role". split; vm_compute; reflexivity.
  - vm_compute. reflexivity.
  - intros Heq.
    assert (Ha : (<["a" := VStr "x"]> docFoo : gmap string value) !! "a"
                 = docFoo !! "a") by (by rewrite Heq).
    vm_compute in Ha. discriminate Ha.
  - intros [_ (rc & Hrc & Hm)]. vm_compute in Hrc.
    injection Hrc as <-. vm_compute in Hm. discriminate Hm.
  - vm_compute. reflexivity.
  - split; [done|]. split; [by left|].
    exists "Foo", "Foo". split_and!; vm_compute; reflexivity.
  - vm_compute. reflexivity.
  - intros Heq.
    assert (Hb : (<["b" := VStr "y"]> docFoo : gmap string value) !! "b"
                 = docFoo !! "b") by (by rewrite Heq).
    vm_compute in Hb. discriminate Hb.
Qed.

(** C6 (failing input). A manifest set of one document, and one rule with
    two selectors and one placeholder reference: the application of the
    rule panics on the index of the second match, and
    [ParametrizeManifests] panics with it, so that no error is returned.
    The same for a rule whose expression gives no document, where the nil
    result is dereferenced. *)
Theorem ParametrizeManifests_panics :
  applyModifications miniYq docRole [ruleShort] = Panic "index out of range"
  ∧ ParametrizeManifests miniYq (release [docRole] []) [ruleShort]
    = Panic "index out of range"
  ∧ ¬ isErr (ParametrizeManifests miniYq (release [docRole] []) [ruleShort])
  ∧ applyModifications miniYq docRole [ruleNoDocument]
    = Panic "nil pointer dereference"
  ∧ ParametrizeManifests miniYq (release [docRole] []) [ruleNoDocument]
    = Panic "nil pointer dereference"
  ∧ ¬ isErr (ParametrizeManifests miniYq (release [docRole] [])
               [ruleNoDocument]).
Proof.
  assert (H1 : ParametrizeManifests miniYq (release [docRole] []) [ruleShort]
               = Panic "index out of range") by (vm_compute; reflexivity).
  assert (H2 : ParametrizeManifests miniYq (release [docRole] [])
                 [ruleNoDocument]
               = Panic "nil pointer dereference") by (vm_compute; reflexivity).
  split_and!.
  - vm_compute. reflexivity.
  - exact H1.
  - intros [e He]. rewrite H1 in He. discriminate He.
  - vm_compute. reflexivity.
  - exact H2.
  - intros [e He]. rewrite H2 in He. discriminate He.
Qed.

Lemma wrapResult_null_is_empty_witness :
  length [VNull] = 1
  ∧ resultToAny miniYq [VNull] = Ok VNull
  ∧ wrapResult miniYq [VNull] "kubevirt.customizeComponents" = Ok ∅.
Proof.
  split; [reflexivity|]. split; [reflexivity|].
  exact (proj1 (wrapResult_null_is_empty miniYq [VNull]
                  "kubevirt.customizeComponents" eq_refl eq_refl)).
Defined.

End engine_runs.

(** ** createTemplates *)

Section template_facts.
Context `{Strings} `{Yaml}.

Lemma foldl_appendDoc name t ts :
  foldl appendDoc {| chart.Name := name; chart.Data := t |} ts
  = {| chart.Name := name;
       chart.Data := foldl (λ acc t', acc +:+ docSeparator +:+ t') t ts |}.
Proof.
  revert t. induction ts as [|t' ts IH]; intros t; simpl; [done|].
  exact (IH (t +:+ docSeparator +:+ t')).
Qed.

Lemma renderedText_ok d text :
  renderManifest d = Ok text → renderedText d = text.
Proof. unfold renderedText. by intros ->. Qed.

Lemma collectTemplates_lookup docs i t t' k :
  collectTemplates i docs t = Ok t' →
  t' !! k = extendUnit k (t !! k) (renderedText <$> docsOfKind k docs).
Proof.
  revert i t. induction docs as [|d docs IH]; intros i t Hc; simpl in Hc.
  - injection Hc as <-. simpl. by destruct (t !! k).
  - destruct (renderManifest d) as [text| |] eqn:Hr; simpl in Hc; [|done..].
    destruct (kindOf d) as [kind|] eqn:Hk; [|done].
    apply IH in Hc. rewrite Hc. clear Hc.
    unfold docsOfKind. rewrite filter_cons. fold (docsOfKind k docs).
    destruct (decide (kindOf d = Some k)) as [Heq|Hne].
    + assert (kind = k) as -> by congruence.
      rewrite fmap_cons, (renderedText_ok _ _ Hr).
      destruct (t !! k) as [f|]; by rewrite lookup_insert_eq.
    + assert (kind ≠ k) by congruence.
      destruct (t !! kind); by rewrite lookup_insert_ne.
Qed.

Lemma collectTemplates_unit docs t' k :
  collectTemplates 0 docs ∅ = Ok t' →
  t' !! k = if decide (k ∈ kindsOf docs) then Some (templateUnit docs k)
            else None.
Proof.
  intros Hc. rewrite (collectTemplates_lookup _ _ _ _ _ Hc), lookup_empty.
  unfold templateUnit, kindsOf, joinDocs, extendUnit.
  destruct (docsOfKind k docs) as [|d ds] eqn:Hds; simpl.
  - rewrite decide_False; [done|].
    rewrite elem_of_remove_dups, list_elem_of_omap. intros (d & Hd & Hk).
    assert (d ∈ docsOfKind k docs) as Hin
      by by apply list_elem_of_filter.
    rewrite Hds in Hin. by apply elem_of_nil in Hin.
  - rewrite decide_True; [by rewrite foldl_appendDoc|].
    rewrite elem_of_remove_dups, list_elem_of_omap. exists d.
    assert (d ∈ docsOfKind k docs) as Hin by (rewrite Hds; by left).
    apply list_elem_of_filter in Hin. tauto.
Qed.

Lemma collectTemplates_units docs t' :
  collectTemplates 0 docs ∅ = Ok t' →
  (map_to_list t').*2 ≡ₚ templateUnit docs <$> kindsOf docs.
Proof.
  intros Hc.
  assert (map_to_list t' ≡ₚ (λ k, (k, templateUnit docs k)) <$> kindsOf docs)
    as Hp.
  { apply NoDup_Permutation.
    - apply NoDup_map_to_list.
    - assert (Inj (=) (=) (λ k : string, (k, templateUnit docs k)))
        by (by intros k1 k2 [= ->]).
      apply (NoDup_fmap_2 _), NoDup_remove_dups.
    - intros [k f]. rewrite elem_of_map_to_list, list_elem_of_fmap.
      rewrite (collectTemplates_unit _ _ _ Hc).
      case_decide; split.
      + intros [= <-]. by exists k.
      + by intros (k' & [= -> ->] & _).
      + done.
      + by intros (k' & [= -> ->] & ?). }
  rewrite Hp, <-list_fmap_compose. done.
Qed.

(** C8 (as the code has it). When [createTemplates] succeeds, the
    templates of the chart are, in some order, one unit for each kind that
    occurs: named after the lower-cased kind and holding the texts of the
    documents of that kind, in input order, a boundary marker between two.
    Another run on the same input gives the same units, in some order;
    the order itself is the one the map iteration happens to take. *)
Theorem createTemplates_groups_by_kind
    (order order' : gmap string chart.File → list (string * chart.File))
    (ch : chart.Chart) (docs : list (gmap string value)) (c : chart.Chart) :
  validOrder order → validOrder order' →
  createTemplates order ch docs = Ok c →
  chart.Templates c ≡ₚ templateUnit docs <$> kindsOf docs
  ∧ NoDup (kindsOf docs)
  ∧ ∃ c', createTemplates order' ch docs = Ok c'
          ∧ chart.Templates c' ≡ₚ chart.Templates c.
Proof.
  intros Ho Ho' Hc. unfold createTemplates in *.
  destruct (collectTemplates 0 docs ∅) as [t| |] eqn:Ht; simpl in *; [|done..].
  injection Hc as <-. simpl.
  assert (∀ o, validOrder o → (o t).*2 ≡ₚ templateUnit docs <$> kindsOf docs)
    as Hunits.
  { intros o Hvalid. rewrite (Hvalid t). by apply collectTemplates_units. }
  split_and!.
  - by apply Hunits.
  - apply NoDup_remove_dups.
  - eexists. split; [done|]. simpl. by rewrite !Hunits.
Qed.

End template_facts.

Section template_runs.
Import doubles fixtures.

Lemma validOrder_forward : validOrder forwardOrder.
Proof. by intros t. Qed.

Lemma validOrder_reverse : validOrder reverseOrder.
Proof. intros t. apply reverse_Permutation. Qed.

(** C8, the order. Two runs on the same two documents, the map iteration
    taking one order in the first and the opposite one in the second, give
    the two template units in opposite orders. *)
Lemma createTemplates_order_differs :
  validOrder forwardOrder
  ∧ validOrder reverseOrder
  ∧ (λ c, chart.Name <$> chart.Templates c)
      <$> createTemplates forwardOrder emptyChart [docKubeVirt; docRole]
    = Ok ["templates/kubevirt.yaml"; "templates/role.yaml"]
  ∧ (λ c, chart.Name <$> chart.Templates c)
      <$> createTemplates reverseOrder emptyChart [docKubeVirt; docRole]
    = Ok ["templates/role.yaml"; "templates/kubevirt.yaml"]
  ∧ createTemplates forwardOrder emptyChart [docKubeVirt; docRole]
    ≠ createTemplates reverseOrder emptyChart [docKubeVirt; docRole].
Proof.
  split; [apply validOrder_forward|].
  split; [apply validOrder_reverse|].
  vm_compute. split_and!; [reflexivity|reflexivity|discriminate].
Qed.

Lemma createTemplates_groups_by_kind_witness :
  validOrder forwardOrder
  ∧ validOrder reverseOrder
  ∧ ∃ c, createTemplates forwardOrder emptyChart [docKubeVirt; docRole; docKubeVirt]
         = Ok c
         ∧ chart.Templates c
           ≡ₚ templateUnit [docKubeVirt; docRole; docKubeVirt]
                <$> kindsOf [docKubeVirt; docRole; docKubeVirt].
Proof.
  split; [apply validOrder_forward|].
  split; [apply validOrder_reverse|].
  destruct (createTemplates forwardOrder emptyChart
              [docKubeVirt; docRole; docKubeVirt]) as [c| |] eqn:Hc;
    [|vm_compute in Hc; discriminate Hc..].
  exists c. split; [reflexivity|].
  exact (proj1 (createTemplates_groups_by_kind forwardOrder reverseOrder
                  emptyChart _ c validOrder_forward validOrder_reverse Hc)).
Defined.

End template_runs.

(** ** FilterManifests on concrete documents *)

Section filter_runs.
Import doubles fixtures.

Example FilterManifests_run :
  manifests (FilterManifests
               (release [docRole; docKubeVirt; docNoKind; docRole] [docRole])
               ["ROLE"; "Secret"])
  = [docKubeVirt; docNoKind]
  ∧ Crds (FilterManifests
            (release [docRole; docKubeVirt; docNoKind; docRole] [docRole])
            ["ROLE"; "Secret"])
    = [docRole].
Proof. vm_compute. split; reflexivity. Qed.

End filter_runs.

(** * Further properties *)

(** ** DeepMerge as an operation on overlays *)

Lemma mergeAt_Some v1 v2 : mergeAt (Some v1) v2 = DeepMergeValue v1 v2.
Proof. by destruct v1, v2. Qed.

(** X1. The order in which the entries of the second mapping are visited
    does not change the result of the merge. *)
Theorem DeepMerge_any_order (l : list (string * value))
    (first second : gmap string value) :
  l ≡ₚ map_to_list second →
  DeepMergeIn l first = DeepMerge first second.
Proof. apply DeepMergeIn_order. Qed.

Lemma DeepMerge_any_order_witness :
  reverse (map_to_list ({[ "a" := VInt 1; "b" := VInt 2 ]} : gmap string value))
  ≡ₚ map_to_list ({[ "a" := VInt 1; "b" := VInt 2 ]} : gmap string value)
  ∧ DeepMergeIn
      (reverse (map_to_list ({[ "a" := VInt 1; "b" := VInt 2 ]} : gmap string value)))
      {[ "a" := VInt 0 ]}
    = DeepMerge {[ "a" := VInt 0 ]} {[ "a" := VInt 1; "b" := VInt 2 ]}.
Proof.
  split; [apply reverse_Permutation|].
  apply DeepMerge_any_order, reverse_Permutation.
Defined.

(** X2. The empty mapping is a unit of the merge on both sides, and the
    keys of a merge are the keys of its two arguments: no key is lost. *)
Theorem DeepMerge_unit_dom (a b : gmap string value) :
  DeepMerge a ∅ = a
  ∧ DeepMerge ∅ b = b
  ∧ dom (DeepMerge a b) = dom a ∪ dom b.
Proof.
  split_and!; [apply DeepMerge_empty_r|apply DeepMerge_empty_l|].
  apply set_eq. intros k.
  rewrite elem_of_union, !elem_of_dom, DeepMerge_lookup.
  destruct (b !! k) as [v2|]; split.
  - eauto.
  - by eexists.
  - eauto.
  - intros [?|[? ?]]; [done|done].
Qed.

Lemma DeepMergeValue_absorb_r v1 v2 :
  DeepMergeValue (DeepMergeValue v1 v2) v2 = DeepMergeValue v1 v2.
Proof.
  revert v1. induction v2 as [v2 IH] using value_nested_ind. intros v1.
  destruct v2 as [| | | | |m2]; try by destruct v1.
  destruct v1 as [| | | | |m1];
    try (simpl DeepMergeValue at 2; apply DeepMergeValue_idempotent).
  rewrite !DeepMergeValue_maps. f_equal. apply map_eq. intros k.
  rewrite !DeepMerge_lookup.
  destruct (m2 !! k) as [y|] eqn:Hy; [|done]. f_equal.
  rewrite mergeAt_Some. destruct (m1 !! k) as [x|].
  - rewrite mergeAt_Some. by eapply IH.
  - simpl. apply DeepMergeValue_idempotent.
Qed.

(** X3. Merging the same overlay a second time changes nothing. *)
Theorem DeepMerge_absorb (a b : gmap string value) :
  DeepMerge (DeepMerge a b) b = DeepMerge a b.
Proof.
  pose proof (DeepMergeValue_absorb_r (VMap a) (VMap b)) as Hv.
  rewrite !DeepMergeValue_maps in Hv. by injection Hv.
Qed.

(** X4. When no key holds a mapping on both sides, the merge is the union
    of the two mappings in which the second wins. *)
Theorem DeepMerge_union (a b : gmap string value) :
  (∀ k m1 m2, a !! k = Some (VMap m1) → b !! k = Some (VMap m2) → False) →
  DeepMerge a b = b ∪ a.
Proof.
  intros Hflat. apply map_eq. intros k.
  rewrite DeepMerge_lookup, lookup_union.
  destruct (b !! k) as [y|] eqn:Hy; [|by destruct (a !! k)].
  destruct (a !! k) as [x|] eqn:Hx; simpl; [|done]. f_equal.
  destruct x as [| | | | |m1]; try done.
  destruct y as [| | | | |m2]; try done.
  destruct (Hflat k m1 m2 Hx Hy).
Qed.

Lemma DeepMerge_union_witness :
  (∀ k m1 m2,
     ({[ "a" := VMap ∅ ]} : gmap string value) !! k = Some (VMap m1) →
     ({[ "a" := VStr "x" ]} : gmap string value) !! k = Some (VMap m2) → False)
  ∧ DeepMerge {[ "a" := VMap ∅ ]} {[ "a" := VStr "x" ]}
    = ({[ "a" := VStr "x" ]} : gmap string value) ∪ {[ "a" := VMap ∅ ]}.
Proof.
  assert (Hflat : ∀ k m1 m2,
     ({[ "a" := VMap ∅ ]} : gmap string value) !! k = Some (VMap m1) →
     ({[ "a" := VStr "x" ]} : gmap string value) !! k = Some (VMap m2) → False).
  { intros k m1 m2 _ Hb. apply lookup_singleton_Some in Hb as [_ Hb].
    discriminate Hb. }
  split; [exact Hflat|]. exact (DeepMerge_union _ _ Hflat).
Defined.

Lemma map_fold_andb {A} (p : string → A → bool) (m : gmap string A) :
  map_fold (λ k x acc, acc && p k x) true m = true
  ↔ map_Forall (λ k x, p k x = true) m.
Proof.
  apply (map_fold_weak_ind
           (λ r m, r = true ↔ map_Forall (λ k x, p k x = true) m)).
  - split; [intros _; apply map_Forall_empty|done].
  - intros i x m' r Hi IH.
    rewrite andb_true_iff, IH, map_Forall_insert by done. tauto.
Qed.

Lemma keepsValue_maps (a b : gmap string value) :
  keepsValue (VMap a) (VMap b) = true
  ↔ ∀ k x1 x2, a !! k = Some x1 → b !! k = Some x2 → keepsValue x1 x2 = true.
Proof.
  simpl. rewrite map_fold_andb. unfold map_Forall. split.
  - intros Hall k x1 x2 Ha Hb. specialize (Hall k x2 Hb). by rewrite Ha in Hall.
  - intros Hall k x2 Hb. destruct (a !! k) as [x1|] eqn:Ha; [|done].
    by eapply Hall.
Qed.

Lemma DeepMergeValue_assoc x y z :
  keepsValue x y = true →
  DeepMergeValue (DeepMergeValue x y) z
  = DeepMergeValue x (DeepMergeValue y z).
Proof.
  revert x z. induction y as [y IH] using value_nested_ind. intros x z Hk.
  destruct z as [| | | | |c]; try by destruct (DeepMergeValue x y), y, x.
  destruct y as [| | | | |b]; try by destruct x.
  destruct x as [| | | | |a]; try done.
  rewrite !DeepMergeValue_maps. f_equal. apply map_eq. intros k.
  rewrite !DeepMerge_lookup.
  rewrite keepsValue_maps in Hk.
  destruct (c !! k) as [zk|] eqn:Hc; destruct (b !! k) as [yk|] eqn:Hb;
    destruct (a !! k) as [xk|] eqn:Ha; try done; f_equal.
  rewrite !mergeAt_Some. eapply IH; [done|done|by eapply Hk].
Qed.

(** X5. The merge is associative whenever the second overlay keeps the
    mappings of the first, that is, never puts a scalar or a sequence where
    the first holds a mapping; without that, it need not be: a scalar in the
    middle overlay cuts the mapping below it off from the one above. *)
Theorem DeepMerge_assoc :
  (∀ a b c : gmap string value,
     keepsMappings a b = true →
     DeepMerge (DeepMerge a b) c = DeepMerge a (DeepMerge b c))
  ∧ DeepMerge (DeepMerge {[ "k" := VMap {[ "p" := VInt 1 ]} ]}
                         {[ "k" := VInt 5 ]})
              {[ "k" := VMap {[ "q" := VInt 2 ]} ]}
    ≠ DeepMerge {[ "k" := VMap {[ "p" := VInt 1 ]} ]}
                (DeepMerge {[ "k" := VInt 5 ]}
                           {[ "k" := VMap {[ "q" := VInt 2 ]} ]}).
Proof.
  split.
  - intros a b c Hk.
    pose proof (DeepMergeValue_assoc (VMap a) (VMap b) (VMap c) Hk) as Hv.
    rewrite !DeepMergeValue_maps in Hv. by injection Hv.
  - intros Heq.
    assert (DeepMerge (DeepMerge {[ "k" := VMap {[ "p" := VInt 1 ]} ]}
                                 {[ "k" := VInt 5 ]})
                      {[ "k" := VMap {[ "q" := VInt 2 ]} ]} !! "k"
            = Some (VMap {[ "q" := VInt 2 ]})) as Hl by (vm_compute; reflexivity).
    rewrite Heq in Hl. vm_compute in Hl. discriminate Hl.
Qed.

Lemma DeepMerge_assoc_witness :
  keepsMappings {[ "k" := VMap {[ "p" := VInt 1 ]} ]}
                {[ "k" := VMap {[ "p" := VInt 2 ]}; "j" := VInt 0 ]} = true
  ∧ DeepMerge (DeepMerge {[ "k" := VMap {[ "p" := VInt 1 ]} ]}
                         {[ "k" := VMap {[ "p" := VInt 2 ]}; "j" := VInt 0 ]})
              {[ "k" := VInt 7 ]}
    = DeepMerge {[ "k" := VMap {[ "p" := VInt 1 ]} ]}
                (DeepMerge {[ "k" := VMap {[ "p" := VInt 2 ]}; "j" := VInt 0 ]}
                           {[ "k" := VInt 7 ]}).
Proof.
  split; [vm_compute; reflexivity|].
  apply (proj1 DeepMerge_assoc). vm_compute. reflexivity.
Defined.

(** ** Wrapping an extracted value *)

Lemma Split_not_nil sep s : Split sep s ≠ [].
Proof.
  destruct s as [|c s]; simpl; [done|].
  destruct (Ascii.eqb c sep); [done|]. by destruct (Split sep s).
Qed.

Lemma valueAt_wrapUnder path v : valueAt path (wrapUnder path v) = Some v.
Proof.
  induction path as [|k path IH]; simpl; [done|].
  by rewrite lookup_singleton_eq.
Qed.

Lemma asMap_wrapUnder path v :
  path ≠ [] → ∃ frag, asMap (wrapUnder path v) = Some frag
                      ∧ wrapUnder path v = VMap frag.
Proof. destruct path as [|k path]; [done|]. intros _. by eexists. Qed.

(** The value at a path after a wrapped value has been merged in: the value
    itself, merged over what the overlay held there. *)
Lemma valueAt_DeepMerge_wrapUnder path v (ex frag : gmap string value) :
  wrapUnder path v = VMap frag →
  valueAt path (VMap (DeepMerge ex frag))
  = Some match valueAt path (VMap ex) with
         | Some old => DeepMergeValue old v
         | None => v
         end.
Proof.
  revert ex frag. induction path as [|k path IH]; intros ex frag Hw.
  - simpl in *. subst v. by rewrite DeepMergeValue_maps.
  - simpl in Hw. injection Hw as <-. cbn [valueAt].
    rewrite DeepMerge_lookup, lookup_singleton_eq. cbn [mbind option_bind].
    destruct (ex !! k) as [old|] eqn:Hex; cbn [mbind option_bind].
    + rewrite mergeAt_Some.
      destruct path as [|k' path]; [done|].
      change (wrapUnder (k' :: path) v)
        with (VMap {[ k' := wrapUnder path v ]}).
      destruct old as [| | | | |e'];
        try (cbn [DeepMergeValue valueAt];
             by rewrite lookup_singleton_eq; cbn [mbind option_bind];
                rewrite valueAt_wrapUnder).
      rewrite DeepMergeValue_maps. by apply IH.
    + cbn [mergeAt]. by rewrite valueAt_wrapUnder.
Qed.

Section wrap_facts.
Context (m : modifier).

(** X6. Whenever the evaluation gave exactly one result and that result
    decodes, [wrapResult] succeeds: its last error, that of a wrapped value
    that is no mapping, cannot occur.  A null value gives the empty mapping;
    any other value is found again in the fragment under the segments of the
    dotted path. *)
Theorem wrapResult_roundtrip (res : list (node m)) (underPath : string)
    (v : value) :
  length res = 1 →
  resultToAny m res = Ok v →
  ∃ frag, wrapResult m res underPath = Ok frag
          ∧ (v = VNull → frag = ∅)
          ∧ (v ≠ VNull →
             wrapUnder (Split "." underPath) v = VMap frag
             ∧ valueAt (Split "." underPath) (VMap frag) = Some v).
Proof.
  intros Hlen Hv. unfold wrapResult.
  rewrite bool_decide_false by (rewrite Hlen; lia). rewrite Hv. simpl.
  destruct (asMap_wrapUnder (Split "." underPath) v (Split_not_nil _ _))
    as (frag & Hfrag & Hw).
  destruct v; try (exists frag; rewrite Hfrag;
    split_and!; [done|done|intros _; by rewrite <-Hw, valueAt_wrapUnder]).
  exists ∅. split_and!; done.
Qed.

(** X7. Merging the fragment of an extraction into the extracted values
    makes the matched value readable at the dotted path, merged over what
    the values held there before. *)
Theorem wrapResult_merge_lookup (res : list (node m)) (underPath : string)
    (v : value) (frag extracted : gmap string value) :
  length res = 1 →
  resultToAny m res = Ok v →
  v ≠ VNull →
  wrapResult m res underPath = Ok frag →
  valueAt (Split "." underPath) (VMap (DeepMerge extracted frag))
  = Some match valueAt (Split "." underPath) (VMap extracted) with
         | Some old => DeepMergeValue old v
         | None => v
         end.
Proof.
  intros Hlen Hv Hnn Hw.
  destruct (wrapResult_roundtrip res underPath v Hlen Hv)
    as (frag' & Hw' & _ & Hfrag).
  rewrite Hw in Hw'. injection Hw' as <-.
  apply valueAt_DeepMerge_wrapUnder. by apply Hfrag.
Qed.

End wrap_facts.

Lemma wrapResult_roundtrip_witness :
  length [VInt 3] = 1
  ∧ resultToAny doubles.miniYq [VInt 3] = Ok (VInt 3)
  ∧ ∃ frag, wrapResult doubles.miniYq [VInt 3] "kubevirt.replicas" = Ok frag
            ∧ valueAt ["kubevirt"; "replicas"] (VMap frag) = Some (VInt 3).
Proof.
  split; [reflexivity|]. split; [reflexivity|].
  destruct (wrapResult_roundtrip doubles.miniYq [VInt 3] "kubevirt.replicas"
              (VInt 3) eq_refl eq_refl) as (frag & Hw & _ & Hat).
  exists frag. split; [exact Hw|]. by apply Hat.
Defined.

Lemma wrapResult_merge_lookup_witness :
  length [VInt 3] = 1
  ∧ resultToAny doubles.miniYq [VInt 3] = Ok (VInt 3)
  ∧ VInt 3 ≠ VNull
  ∧ wrapResult doubles.miniYq [VInt 3] "a.b" = Ok {[ "a" := VMap {[ "b" := VInt 3 ]} ]}
  ∧ valueAt (Split "." "a.b")
      (VMap (DeepMerge {[ "a" := VMap {[ "c" := VInt 1 ]} ]}
                       {[ "a" := VMap {[ "b" := VInt 3 ]} ]}))
    = Some (VInt 3).
Proof.
  split; [reflexivity|]. split; [reflexivity|]. split; [discriminate|].
  assert (Hw : wrapResult doubles.miniYq [VInt 3] "a.b"
               = Ok {[ "a" := VMap {[ "b" := VInt 3 ]} ]})
    by (vm_compute; reflexivity).
  split; [exact Hw|].
  rewrite (wrapResult_merge_lookup doubles.miniYq [VInt 3] "a.b" (VInt 3)
             _ {[ "a" := VMap {[ "c" := VInt 1 ]} ]} eq_refl eq_refl
             ltac:(discriminate) Hw).
  vm_compute. reflexivity.
Defined.

(** ** The placeholder pattern *)

Lemma spanValuePath_spec s g r :
  spanValuePath s = (g, r) → s = g +:+ r ∧ semver.allChars isPathChar g = true.
Proof.
  revert g r. induction s as [|c s IH]; intros g r Hs; simpl in Hs.
  - by injection Hs as <- <-.
  - destruct (isSpace c || isCloseBrace c) eqn:Hc.
    + by injection Hs as <- <-.
    + destruct (spanValuePath s) as [g' r'].
      injection Hs as <- <-. destruct (IH g' r' eq_refl) as [-> Hg].
      split; [done|]. simpl. unfold isPathChar at 1. by rewrite Hc.
Qed.

Lemma matchValuesAt_group s mi :
  matchValuesAt s = Some mi →
  ∃ whole group, mi = [whole; group] ∧ validValuePath group = true.
Proof.
  unfold matchValuesAt, mbind, option_bind. intros Hm.
  destruct (stripPrefix "{{" s) as [s1|]; [|done].
  destruct (stripPrefix ".Values." (dropSpaces s1)) as [s2|]; [|done].
  destruct (spanValuePath s2) as [g s3] eqn:Hspan.
  case_bool_decide as Hg; [done|].
  destruct (findClose s3); [|done].
  injection Hm as <-. eexists _, _. split; [done|].
  unfold validValuePath. rewrite bool_decide_false by done.
  by destruct (spanValuePath_spec _ _ _ Hspan) as [_ ->].
Qed.

Lemma findAllFrom_group skip s mi :
  mi ∈ findAllFrom skip s →
  ∃ whole group, mi = [whole; group] ∧ validValuePath group = true.
Proof.
  revert skip. induction s as [|c s IH]; intros skip; simpl.
  - by intros ?%elem_of_nil.
  - destruct skip as [|n]; [|by apply IH].
    destruct (matchValuesAt (String c s)) as [mi'|] eqn:Hm; [|by apply IH].
    intros [->|Hin]%elem_of_cons; [|by eapply IH].
    by eapply matchValuesAt_group.
Qed.

(** X8. Every match the pattern finds in an expression consists of the
    whole reference and one captured path, and the path is not empty and
    holds neither white space nor a closing brace: indexing a match at 1 is
    always in range, and the path [wrapResult] splits is never empty. *)
Theorem FindAllStringSubmatch_group (s : string) (mi : list string) :
  mi ∈ FindAllStringSubmatch s →
  ∃ whole group, mi = [whole; group]
                 ∧ mi !! 1 = Some group
                 ∧ validValuePath group = true.
Proof.
  intros (whole & group & -> & Hv)%findAllFrom_group. by eexists _, _.
Qed.

Lemma FindAllStringSubmatch_group_witness :
  ["{{ .Values.a.b }}"; "a.b"]
    ∈ FindAllStringSubmatch (".x |= " +:+ dq +:+ "{{ .Values.a.b }}" +:+ dq)
  ∧ validValuePath "a.b" = true.
Proof.
  assert (Hin : ["{{ .Values.a.b }}"; "a.b"]
    ∈ FindAllStringSubmatch (".x |= " +:+ dq +:+ "{{ .Values.a.b }}" +:+ dq))
    by (vm_compute; apply elem_of_cons; by left).
  split; [exact Hin|].
  destruct (FindAllStringSubmatch_group _ _ Hin) as (whole & group & Heq & _ & Hv).
  injection Heq as _ <-. exact Hv.
Defined.

Lemma string_app_nil (b : string) : EmptyString +:+ b = b.
Proof. reflexivity. Qed.

Lemma string_app_cons x (a b : string) : String x a +:+ b = String x (a +:+ b).
Proof. reflexivity. Qed.

Lemma string_app_assoc (a b c : string) : (a +:+ b) +:+ c = a +:+ (b +:+ c).
Proof.
  induction a as [|x a IH]; [done|]. rewrite !string_app_cons. by f_equal.
Qed.

Lemma string_app_length (a b : string) :
  String.length (a +:+ b) = String.length a + String.length b.
Proof.
  induction a as [|x a IH]; [done|]. rewrite string_app_cons. simpl. by f_equal.
Qed.

Lemma takeString_app (a b : string) : takeString (String.length a) (a +:+ b) = a.
Proof.
  induction a as [|x a IH]; [by destruct b|].
  rewrite string_app_cons. simpl. by f_equal.
Qed.

Lemma spanValuePath_app p c r :
  semver.allChars isPathChar p = true →
  isSpace c || isCloseBrace c = true →
  spanValuePath (p +:+ String c r) = (p, String c r).
Proof.
  intros Hp Hc. induction p as [|x p IH].
  - rewrite string_app_nil. simpl. by rewrite Hc.
  - rewrite string_app_cons. simpl in *.
    apply andb_true_iff in Hp as [Hx Hp]. unfold isPathChar in Hx.
    apply negb_true_iff in Hx. rewrite Hx. by rewrite IH.
Qed.

Lemma findAllFrom_skip (a b : string) n :
  findAllFrom (String.length a + n) (a +:+ b) = findAllFrom n b.
Proof.
  induction a as [|x a IH]; [done|]. rewrite string_app_cons. simpl. apply IH.
Qed.

Lemma matchValuesAt_no_brace c s :
  N.eqb (N_of_ascii c) 123 = false → matchValuesAt (String c s) = None.
Proof.
  intros Hc. unfold matchValuesAt.
  change (stripPrefix "{{" (String c s))
    with (if Ascii.eqb "{"%char c then stripPrefix "{" s else None).
  destruct (Ascii.eqb_spec "{"%char c) as [<-|Hne]; [|done].
  vm_compute in Hc. discriminate Hc.
Qed.

Lemma findAllFrom_braceFree (pre s : string) :
  braceFree pre = true → findAllFrom 0 (pre +:+ s) = findAllFrom 0 s.
Proof.
  intros Hpre. induction pre as [|c pre IH]; [done|].
  rewrite string_app_cons. simpl in *.
  apply andb_true_iff in Hpre as [Hc Hpre]. apply negb_true_iff in Hc.
  rewrite matchValuesAt_no_brace by done. by apply IH.
Qed.

Lemma string_app_nil_r (a : string) : a +:+ EmptyString = a.
Proof.
  induction a as [|x a IH]; [done|]. rewrite string_app_cons. by f_equal.
Qed.

Lemma findAllFrom_braceFree_nil (post : string) :
  braceFree post = true → findAllFrom 0 post = [].
Proof.
  intros Hpost. rewrite <-(string_app_nil_r post) at 1.
  by rewrite findAllFrom_braceFree.
Qed.

Lemma matchValuesAt_placeholder p post :
  validValuePath p = true →
  matchValuesAt (placeholder p +:+ post) = Some [placeholder p; p].
Proof.
  unfold validValuePath. intros [Hne Hp]%andb_true_iff.
  apply negb_true_iff, bool_decide_eq_false in Hne.
  unfold matchValuesAt, placeholder.
  rewrite !string_app_assoc.
  change (stripPrefix "{{" ("{{ .Values." +:+ p +:+ " }}" +:+ post))
    with (Some (" .Values." +:+ p +:+ " }}" +:+ post)).
  cbn [mbind option_bind].
  change (dropSpaces (" .Values." +:+ p +:+ " }}" +:+ post))
    with (".Values." +:+ p +:+ " }}" +:+ post).
  change (stripPrefix ".Values." (".Values." +:+ p +:+ " }}" +:+ post))
    with (Some (p +:+ " }}" +:+ post)).
  cbn [mbind option_bind].
  change (" }}" +:+ post) with (String " "%char ("}}" +:+ post)).
  rewrite spanValuePath_app by done.
  rewrite bool_decide_false by done.
  change (findClose (String " " ("}}" +:+ post))) with (Some post).
  cbn [mbind option_bind]. do 2 f_equal.
  change (String " " ("}}" +:+ post)) with (" }}" +:+ post).
  rewrite <-!string_app_assoc.
  rewrite (string_app_length _ post), Nat.add_sub.
  apply takeString_app.
Qed.

(** X9. An expression that holds the reference to one valid value path,
    between texts without opening brace, yields exactly one match, and the
    path it captures is that path. *)
Theorem FindAllStringSubmatch_placeholder (pre p post : string) :
  braceFree pre = true →
  validValuePath p = true →
  braceFree post = true →
  FindAllStringSubmatch (pre +:+ placeholder p +:+ post)
  = [[placeholder p; p]].
Proof.
  intros Hpre Hp Hpost. unfold FindAllStringSubmatch.
  rewrite findAllFrom_braceFree by done.
  assert (Hm := matchValuesAt_placeholder p post Hp).
  remember (placeholder p) as ph eqn:Hph.
  destruct ph as [|c ph]; [done|].
  rewrite string_app_cons in *. cbn [findAllFrom]. rewrite Hm.
  cbn [lookup list_lookup default String.length]. f_equal.
  change (String.length (id (String c ph)) - 1) with (String.length ph - 0).
  rewrite Nat.sub_0_r.
  rewrite <-(Nat.add_0_r (String.length ph)), findAllFrom_skip.
  by apply findAllFrom_braceFree_nil.
Qed.

Lemma FindAllStringSubmatch_placeholder_witness :
  braceFree (".spec.configuration |= " +:+ dq) = true
  ∧ validValuePath "kubevirt.configuration" = true
  ∧ braceFree dq = true
  ∧ FindAllStringSubmatch
      ((".spec.configuration |= " +:+ dq)
       +:+ placeholder "kubevirt.configuration" +:+ dq)
    = [[placeholder "kubevirt.configuration"; "kubevirt.configuration"]].
Proof.
  split; [reflexivity|]. split; [reflexivity|]. split; [reflexivity|].
  by apply FindAllStringSubmatch_placeholder.
Defined.

(** ** The rule engine, where it succeeds and where it panics *)

Section engine_more.
Context `{Strings} `{Regexp} (m : modifier).

(** X10. A rule that passes the kind gate, with one selector and an
    expression whose first placeholder reference names the path [p]: when
    the selector gives one value that is not null and the expression gives a
    document, the rule replaces the document by that one, and the extracted
    values then hold the matched value at the path [p], merged over what
    they held there. *)
Theorem applyModification_extracts (manifest : gmap string value)
    (md : Modification) (st : loopState m) (sel whole p : string)
    (rest : list (list string)) (vals res : list (node m))
    (cand1 cand2 : node m) (v : value) (doc' : gmap string value) :
  kindGate manifest md = Ok true →
  ValuesSelector md = [sel] →
  FindAllStringSubmatch (Expression md) = [whole; p] :: rest →
  EvaluateNodes m sel (candidNode m st) = Ok (vals, cand1) →
  length vals = 1 →
  resultToAny m vals = Ok v →
  v ≠ VNull →
  EvaluateNodes m (Expression md) cand1 = Ok (res, cand2) →
  resultToMap m res = Ok (Some doc') →
  ∃ st', applyModification m manifest st md = Ok st'
         ∧ candidNode m st' = cand2
         ∧ modifiedManifest m st' = doc'
         ∧ valueAt (Split "." p) (VMap (extractedValues m st'))
           = Some match valueAt (Split "." p) (VMap (extractedValues m st)) with
                  | Some old => DeepMergeValue old v
                  | None => v
                  end.
Proof.
  intros Hgate Hsel Hfind Hev1 Hlen Hany Hnn Hev2 Hmap.
  destruct (wrapResult_roundtrip m vals p v Hlen Hany) as (frag & Hw & _ & _).
  unfold applyModification. rewrite Hgate, Hsel, Hfind. simpl.
  rewrite Hev1. simpl. rewrite Hw. simpl. rewrite Hev2. simpl.
  rewrite Hmap. simpl. eexists. split; [done|]. simpl. split_and!; [done..|].
  by eapply wrapResult_merge_lookup.
Qed.

(** X11. With at least one placeholder reference in the expression, a
    selector at a position beyond the last reference makes the rule panic on
    the index of the match, once the selectors before it have been extracted
    and its own evaluation has returned. *)
Theorem applyModification_index_panic (manifest : gmap string value)
    (md : Modification) (st : loopState m) (pre post : list string)
    (sel : string) (cand : node m) (extracted : gmap string value) :
  kindGate manifest md = Ok true →
  ValuesSelector md = pre ++ sel :: post →
  1 ≤ length (FindAllStringSubmatch (Expression md)) →
  length (FindAllStringSubmatch (Expression md)) ≤ length pre →
  extractValues m (Expression md) (FindAllStringSubmatch (Expression md)) 0
    pre (candidNode m st) (extractedValues m st) = Ok (cand, extracted) →
  isOk (EvaluateNodes m sel cand) →
  applyModification m manifest st md = Panic "index out of range".
Proof.
  intros Hgate Hsel Hone Hlen Hpre [[vals cand'] Hev].
  unfold applyModification. rewrite Hgate, Hsel. simpl.
  rewrite extractValues_app, Hpre. simpl. rewrite Hev. simpl.
  rewrite bool_decide_true by done.
  by rewrite lookup_ge_None_2.
Qed.

(** *** ParametrizeManifests, when it succeeds *)

Lemma parametrizeAll_shape docs mods modified extracted ds vs :
  parametrizeAll m docs mods modified extracted = Ok (ds, vs) →
  ∃ ds', ds = modified ++ ds'
         ∧ Forall2 (λ d d', ∃ v, applyModifications m d mods = Ok (d', v))
                   docs ds'
         ∧ dom extracted ⊆ dom vs.
Proof.
  revert modified extracted.
  induction docs as [|d docs IH]; intros modified extracted Hp; simpl in Hp.
  - injection Hp as <- <-. exists []. by rewrite app_nil_r.
  - destruct (applyModifications m d mods) as [[d' v]| |] eqn:Hd;
      simpl in Hp; [|done..].
    destruct (IH _ _ Hp) as (ds' & -> & Hall & Hdom).
    exists (d' :: ds'). split_and!.
    + by rewrite <-app_assoc.
    + constructor; [by eexists|done].
    + etrans; [|exact Hdom].
      destruct (DeepMerge_unit_dom extracted v) as (_ & _ & ->).
      set_solver.
Qed.

(** X12. When [ParametrizeManifests] succeeds, its manifests and its
    schema-definition documents are the results of the rules on the input
    documents, one for one and in the same order; the versions are those of
    the input; and every top-level key of the values given with the input
    is still a key of the values returned. *)
Theorem ParametrizeManifests_shape (ms out : Manifests)
    (mods : list Modification) :
  ParametrizeManifests m ms mods = Ok out →
  Forall2 (λ d d', ∃ v, applyModifications m d mods = Ok (d', v))
          (manifests ms) (manifests out)
  ∧ Forall2 (λ d d', ∃ v, applyModifications m d mods = Ok (d', v))
            (Crds ms) (Crds out)
  ∧ length (manifests out) = length (manifests ms)
  ∧ length (Crds out) = length (Crds ms)
  ∧ Version out = Version ms
  ∧ AppVersion out = AppVersion ms
  ∧ dom (Values ms) ⊆ dom (Values out)
  ∧ dom (CrdsValues ms) ⊆ dom (CrdsValues out).
Proof.
  unfold ParametrizeManifests. intros Hp.
  destruct (parametrizeAll m (manifests ms) mods [] (Values ms))
    as [[ds vs]| |] eqn:H1; simpl in Hp; [|done..].
  destruct (parametrizeAll m (Crds ms) mods [] (CrdsValues ms))
    as [[cs cvs]| |] eqn:H2; simpl in Hp; [|done..].
  injection Hp as <-. simpl.
  destruct (parametrizeAll_shape _ _ _ _ _ _ H1) as (ds' & -> & Hd & Hdom).
  destruct (parametrizeAll_shape _ _ _ _ _ _ H2) as (cs' & -> & Hc & Hcdom).
  simpl. split_and!; try done.
  - symmetry. by eapply Forall2_length.
  - symmetry. by eapply Forall2_length.
Qed.

Lemma parametrizeAll_nil_rules docs modified extracted :
  Forall (λ d, isOk (decode m d)) docs →
  parametrizeAll m docs [] modified extracted = Ok (modified ++ docs, extracted).
Proof.
  revert modified. induction docs as [|d docs IH]; intros modified Hall; simpl.
  - by rewrite app_nil_r.
  - apply Forall_cons in Hall as [[cand Hc] Hall].
    rewrite (applyModifications_nil m d cand Hc). simpl.
    rewrite DeepMerge_empty_r, IH by done. by rewrite <-app_assoc.
Qed.

(** X13. With an empty rule list, and every document accepted by the
    decoder, [ParametrizeManifests] returns the manifest set as it is. *)
Theorem ParametrizeManifests_no_rules (ms : Manifests) :
  Forall (λ d, isOk (decode m d)) (manifests ms ++ Crds ms) →
  ParametrizeManifests m ms [] = Ok ms.
Proof.
  intros [H1 H2]%Forall_app. unfold ParametrizeManifests.
  rewrite !parametrizeAll_nil_rules by done. simpl. by destruct ms.
Qed.

End engine_more.

Section engine_more_runs.
Import doubles fixtures.

Lemma applyModification_extracts_witness :
  kindGate docKubeVirt ruleKubeVirt = Ok true
  ∧ ∃ st', applyModification miniYq docKubeVirt
             (initialState miniYq docKubeVirt (VMap docKubeVirt)) ruleKubeVirt
           = Ok st'
           ∧ valueAt ["kubevirt"; "configuration"]
               (VMap (extractedValues miniYq st'))
             = Some (VMap {[ "x" := VInt 1 ]}).
Proof.
  assert (Hgate : kindGate docKubeVirt ruleKubeVirt = Ok true)
    by (vm_compute; reflexivity).
  split; [exact Hgate|].
  destruct (applyModification_extracts miniYq docKubeVirt ruleKubeVirt
              (initialState miniYq docKubeVirt (VMap docKubeVirt))
              ".spec.configuration"
              (placeholder "kubevirt.configuration") "kubevirt.configuration"
              [] [VMap {[ "x" := VInt 1 ]}]
              [setPath ["spec"; "configuration"]
                 (VStr (placeholder "kubevirt.configuration")) (VMap docKubeVirt)]
              (VMap docKubeVirt)
              (setPath ["spec"; "configuration"]
                 (VStr (placeholder "kubevirt.configuration")) (VMap docKubeVirt))
              (VMap {[ "x" := VInt 1 ]})
              (default ∅ (asMap (setPath ["spec"; "configuration"]
                 (VStr (placeholder "kubevirt.configuration")) (VMap docKubeVirt))))
              Hgate)
    as (st' & Hst & _ & _ & Hat);
    [vm_compute; reflexivity..|discriminate|vm_compute; reflexivity
    |vm_compute; reflexivity|].
  exists st'. split; [exact Hst|]. exact Hat.
Defined.

Lemma applyModification_index_panic_witness :
  kindGate docRole ruleShort = Ok true
  ∧ applyModification miniYq docRole
      (initialState miniYq docRole (VMap docRole)) ruleShort
    = Panic "index out of range".
Proof.
  assert (Hgate : kindGate docRole ruleShort = Ok true)
    by (vm_compute; reflexivity).
  split; [exact Hgate|].
  eapply (applyModification_index_panic miniYq docRole ruleShort _
            [".a"] [] ".b" (VMap docRole) {[ "x" := VInt 1 ]} Hgate).
  - reflexivity.
  - vm_compute. lia.
  - vm_compute. lia.
  - vm_compute. reflexivity.
  - eexists. vm_compute. reflexivity.
Defined.

Lemma ParametrizeManifests_shape_witness :
  ParametrizeManifests miniYq (release [docKubeVirt; docRole] [])
    [ruleNamespace; ruleKubeVirt]
  = Ok {| Crds := [];
          manifests :=
            [ {[ "kind" := VStr "KubeVirt";
                 "metadata" := VMap {[ "namespace" := VStr "{{ .Release.Namespace }}" ]};
                 "spec" := VMap {[
                   "configuration" := VStr "{{ .Values.kubevirt.configuration }}";
                   "customizeComponents" := VNull ]} ]};
              {[ "kind" := VStr "Role"; "a" := VInt 1; "b" := VInt 2;
                 "metadata" := VMap {[ "namespace" := VStr "{{ .Release.Namespace }}" ]} ]} ];
          Version := version001; AppVersion := "0.0.1";
          Values := {[ "kubevirt" := VMap {[ "configuration" := VMap {[ "x" := VInt 1 ]} ]} ]};
          CrdsValues := ∅ |}
  ∧ length (manifests (release [docKubeVirt; docRole] [])) = 2.
Proof.
  assert (Hrun : ParametrizeManifests miniYq (release [docKubeVirt; docRole] [])
    [ruleNamespace; ruleKubeVirt]
  = Ok {| Crds := [];
          manifests :=
            [ {[ "kind" := VStr "KubeVirt";
                 "metadata" := VMap {[ "namespace" := VStr "{{ .Release.Namespace }}" ]};
                 "spec" := VMap {[
                   "configuration" := VStr "{{ .Values.kubevirt.configuration }}";
                   "customizeComponents" := VNull ]} ]};
              {[ "kind" := VStr "Role"; "a" := VInt 1; "b" := VInt 2;
                 "metadata" := VMap {[ "namespace" := VStr "{{ .Release.Namespace }}" ]} ]} ];
          Version := version001; AppVersion := "0.0.1";
          Values := {[ "kubevirt" := VMap {[ "configuration" := VMap {[ "x" := VInt 1 ]} ]} ]};
          CrdsValues := ∅ |}) by (vm_compute; reflexivity).
  split; [exact Hrun|].
  destruct (ParametrizeManifests_shape miniYq _ _ _ Hrun)
    as (_ & _ & Hlen & _).
  rewrite <-Hlen. reflexivity.
Defined.

Lemma ParametrizeManifests_no_rules_witness :
  Forall (λ d, isOk (decode miniYq d))
    (manifests (release [docKubeVirt; docRole] [docNoKind])
     ++ Crds (release [docKubeVirt; docRole] [docNoKind]))
  ∧ ParametrizeManifests miniYq (release [docKubeVirt; docRole] [docNoKind]) []
    = Ok (release [docKubeVirt; docRole] [docNoKind]).
Proof.
  assert (Hall : Forall (λ d, isOk (decode miniYq d))
    (manifests (release [docKubeVirt; docRole] [docNoKind])
     ++ Crds (release [docKubeVirt; docRole] [docNoKind]))).
  { apply Forall_forall. intros d _. by eexists. }
  split; [exact Hall|]. exact (ParametrizeManifests_no_rules miniYq _ Hall).
Defined.

End engine_more_runs.

(** ** FilterManifests as an operation on manifest sets *)

Section filter_more.
Context `{Strings}.

Lemma FilterManifests_unfold ms deny :
  FilterManifests ms deny
  = {| Crds := Crds ms;
       manifests := filter (λ d, ¬ excluded deny d) (manifests ms);
       Version := Version ms;
       AppVersion := AppVersion ms;
       Values := Values ms;
       CrdsValues := CrdsValues ms |}.
Proof. unfold FilterManifests. by rewrite filter_loop. Qed.

Lemma excluded_app deny1 deny2 d :
  excluded (deny1 ++ deny2) d ↔ excluded deny1 d ∨ excluded deny2 d.
Proof.
  unfold excluded. destruct (kindOf d); [apply Exists_app|tauto].
Qed.

Lemma filter_ext_in {A} (P Q : A → Prop) `{!∀ x, Decision (P x)}
    `{!∀ x, Decision (Q x)} (l : list A) :
  (∀ x, x ∈ l → P x ↔ Q x) → filter P l = filter Q l.
Proof.
  induction l as [|x l IH]; intros Hext; [done|].
  rewrite !filter_cons.
  rewrite IH by (intros y Hy; apply Hext; by right).
  destruct (decide (P x)) as [HP|HP], (decide (Q x)) as [HQ|HQ]; try done.
  - destruct HQ. apply Hext; [by left|done].
  - destruct HP. apply Hext; [by left|done].
Qed.

Lemma filter_all {A} (P : A → Prop) `{!∀ x, Decision (P x)} (l : list A) :
  (∀ x, x ∈ l → P x) → filter P l = l.
Proof.
  induction l as [|x l IH]; intros Hall; [done|].
  rewrite filter_cons, decide_True by (apply Hall; by left).
  f_equal. apply IH. intros y Hy. apply Hall. by right.
Qed.

(** X14. An empty exclusion list leaves the manifest set as it is, and
    filtering a second time by the same list changes nothing. *)
Theorem FilterManifests_identity_idempotent (ms : Manifests)
    (deny : list string) :
  FilterManifests ms [] = ms
  ∧ FilterManifests (FilterManifests ms deny) deny = FilterManifests ms deny.
Proof.
  split.
  - rewrite FilterManifests_unfold. destruct ms as [crds docs v av vals cvals].
    simpl. f_equal. apply filter_all.
    intros d _. unfold excluded. destruct (kindOf d); [|tauto].
    rewrite Exists_nil. tauto.
  - rewrite !FilterManifests_unfold. simpl. f_equal.
    rewrite list_filter_filter. apply filter_ext_in. tauto.
Qed.

(** X15. Filtering by one exclusion list and then by another is filtering
    by the two lists together, in either order; and two exclusion lists that
    name the same kinds, case apart, filter alike. *)
Theorem FilterManifests_compose (ms : Manifests) (deny1 deny2 : list string) :
  FilterManifests (FilterManifests ms deny1) deny2
  = FilterManifests ms (deny1 ++ deny2)
  ∧ FilterManifests (FilterManifests ms deny1) deny2
    = FilterManifests (FilterManifests ms deny2) deny1
  ∧ ((∀ kind, Exists (sameKind kind) deny1 ↔ Exists (sameKind kind) deny2) →
     FilterManifests ms deny1 = FilterManifests ms deny2).
Proof.
  rewrite !FilterManifests_unfold. simpl. split_and!.
  - f_equal. rewrite list_filter_filter. apply filter_ext_in.
    intros d _. rewrite excluded_app. tauto.
  - f_equal. rewrite !list_filter_filter. apply filter_ext_in. tauto.
  - intros Hsame. f_equal. apply filter_ext_in. intros d _.
    unfold excluded. destruct (kindOf d) as [kind|]; [|tauto].
    by rewrite Hsame.
Qed.

End filter_more.

(** ** takeNewerVersion without a valid existing version *)

(** X16. When the existing version does not parse, the resolver has no
    version to fall back on: with an unparsable remote tag it returns the
    nil version without error, and with a valid remote tag it panics in the
    comparison. *)
Theorem takeNewerVersion_invalid_existing (existingVersion remoteVersion : string) :
  isErr (semver.NewVersion existingVersion) →
  (isErr (semver.NewVersion remoteVersion) →
   takeNewerVersion existingVersion remoteVersion = Ok None)
  ∧ (isOk (semver.NewVersion remoteVersion) →
     takeNewerVersion existingVersion remoteVersion
     = Panic "nil pointer dereference").
Proof.
  intros [e He]. unfold takeNewerVersion. rewrite He. split.
  - by intros [e' ->].
  - by intros [r ->].
Qed.

Lemma takeNewerVersion_invalid_existing_witness :
  isErr (semver.NewVersion "latest")
  ∧ takeNewerVersion "latest" "nightly" = Ok None
  ∧ takeNewerVersion "latest" "1.0.0" = Panic "nil pointer dereference".
Proof.
  assert (He : isErr (semver.NewVersion "latest")) by (by eexists).
  split; [exact He|].
  destruct (takeNewerVersion_invalid_existing "latest" "nightly" He) as [Hnil _].
  destruct (takeNewerVersion_invalid_existing "latest" "1.0.0" He) as [_ Hpanic].
  split; [apply Hnil; by eexists|apply Hpanic; by eexists].
Defined.

(** ** The quote-stripping replacement *)

Lemma stripPrefix_cons a p c s :
  stripPrefix (String a p) (String c s)
  = if Ascii.eqb a c then stripPrefix p s else None.
Proof. reflexivity. Qed.

Lemma stripPrefix_app p s : stripPrefix p (p +:+ s) = Some s.
Proof.
  induction p as [|a p IH]; [by destruct s|].
  by rewrite string_app_cons, stripPrefix_cons, Ascii.eqb_refl.
Qed.

Lemma matchQuotedAt_no_quote c s :
  isQuote c = false → matchQuotedAt (String c s) = None.
Proof.
  intros Hc. unfold matchQuotedAt, sq, dq.
  change ("'" +:+ "{{") with (String "'"%char "{{").
  change (String (ascii_of_nat 34) EmptyString +:+ "{{")
    with (String (ascii_of_nat 34) "{{").
  rewrite !stripPrefix_cons.
  destruct (Ascii.eqb_spec "'"%char c) as [<-|_];
    [vm_compute in Hc; discriminate Hc|].
  destruct (Ascii.eqb_spec (ascii_of_nat 34) c) as [<-|_];
    [vm_compute in Hc; discriminate Hc|].
  done.
Qed.

Lemma replaceQuotedFrom_quoteFree (pre s : string) :
  quoteFree pre = true →
  replaceQuotedFrom 0 (pre +:+ s) = pre +:+ replaceQuotedFrom 0 s.
Proof.
  intros Hpre. induction pre as [|c pre IH]; [done|].
  rewrite !string_app_cons. simpl in Hpre.
  apply andb_true_iff in Hpre as [Hc Hpre]. apply negb_true_iff in Hc.
  cbn [replaceQuotedFrom]. rewrite matchQuotedAt_no_quote by done.
  by rewrite IH.
Qed.

Lemma replaceQuotedFrom_skip (a b : string) n :
  replaceQuotedFrom (String.length a + n) (a +:+ b) = replaceQuotedFrom n b.
Proof.
  induction a as [|x a IH]; [done|]. rewrite string_app_cons. simpl. apply IH.
Qed.

Lemma findCloseQuoted_body q body post :
  plainBody body = true →
  findCloseQuoted q (body +:+ "}}" +:+ q +:+ post) = Some post.
Proof.
  intros Hb. induction body as [|c body IH].
  - rewrite string_app_nil.
    destruct post; simpl;
      by rewrite <-string_app_assoc, stripPrefix_app.
  - rewrite string_app_cons. simpl in Hb.
    apply andb_true_iff in Hb as [Hc Hb]. apply negb_true_iff in Hc.
    apply orb_false_iff in Hc as [Hbrace Hnl].
    cbn [findCloseQuoted].
    change ("}}" +:+ q) with (String "}"%char ("}" +:+ q)).
    rewrite stripPrefix_cons.
    destruct (Ascii.eqb_spec "}"%char c) as [<-|_];
      [vm_compute in Hbrace; discriminate Hbrace|].
    rewrite Hnl. by apply IH.
Qed.

(** X17. The replacement leaves a text without quotes as it is; and in a
    text that starts without quotes and then holds a template expression
    between two single or two double quotes, the expression ending at its
    first closing braces, it drops exactly these two quotes and goes on
    behind them. *)
Theorem stripTemplateQuotes_spec (pre body post q : string) :
  quoteFree pre = true →
  plainBody body = true →
  q = sq ∨ q = dq →
  stripTemplateQuotes pre = pre
  ∧ stripTemplateQuotes (pre +:+ q +:+ "{{" +:+ body +:+ "}}" +:+ q +:+ post)
    = pre +:+ "{{" +:+ body +:+ "}}" +:+ stripTemplateQuotes post.
Proof.
  intros Hpre Hbody Hq. unfold stripTemplateQuotes. split.
  - rewrite <-(string_app_nil_r pre) at 1.
    by rewrite replaceQuotedFrom_quoteFree, string_app_nil_r.
  - rewrite replaceQuotedFrom_quoteFree by done. f_equal.
    assert (Hm : matchQuotedAt (q +:+ "{{" +:+ body +:+ "}}" +:+ q +:+ post)
                 = Some (q +:+ "{{" +:+ body +:+ "}}" +:+ q)).
    { unfold matchQuotedAt.
      assert (Hq' : ∀ A (x : option A), q = dq →
                stripPrefix (sq +:+ "{{")
                  (q +:+ "{{" +:+ body +:+ "}}" +:+ q +:+ post) ≫= (λ _, x)
                = None) by (by intros A x ->).
      assert (Hfound :
        (stripPrefix (q +:+ "{{") (q +:+ "{{" +:+ body +:+ "}}" +:+ q +:+ post)
         ≫= λ s1, findCloseQuoted q s1
         ≫= λ r, Some (takeString
              (String.length (q +:+ "{{" +:+ body +:+ "}}" +:+ q +:+ post)
               - String.length r)
              (q +:+ "{{" +:+ body +:+ "}}" +:+ q +:+ post)))
        = Some (q +:+ "{{" +:+ body +:+ "}}" +:+ q)).
      { rewrite <-(string_app_assoc q "{{"), stripPrefix_app.
        cbn [mbind option_bind]. rewrite findCloseQuoted_body by done.
        cbn [mbind option_bind]. f_equal.
        replace ((q +:+ "{{") +:+ body +:+ "}}" +:+ q +:+ post)
          with ((q +:+ "{{" +:+ body +:+ "}}" +:+ q) +:+ post)
          by (by rewrite !string_app_assoc).
        rewrite string_app_length, Nat.add_sub. apply takeString_app. }
      destruct Hq as [->| ->]; [by rewrite Hfound|].
      rewrite Hfound. done. }
    assert (Hq1 : ∃ c, q = String c EmptyString)
      by (destruct Hq as [->| ->]; by eexists).
    destruct Hq1 as [c Hc].
    remember (q +:+ "{{" +:+ body +:+ "}}" +:+ q) as whole eqn:Hwhole.
    replace (q +:+ "{{" +:+ body +:+ "}}" +:+ q +:+ post)
      with (whole +:+ post) in *
      by (subst whole; by rewrite !string_app_assoc).
    assert (Hw : whole = String c (("{{" +:+ body +:+ "}}") +:+ q)).
    { subst whole q. by rewrite string_app_cons, string_app_nil,
        !string_app_assoc. }
    rewrite Hw in *. rewrite string_app_cons in *.
    cbn [replaceQuotedFrom]. rewrite Hm.
    assert (Hdrop : dropQuotes (String c (("{{" +:+ body +:+ "}}") +:+ q))
                    = "{{" +:+ body +:+ "}}").
    { unfold dropQuotes. rewrite string_app_length.
      replace (String.length q) with 1 by (by subst q).
      rewrite Nat.add_sub. apply takeString_app. }
    rewrite Hdrop, (string_app_assoc "{{"), (string_app_assoc body).
    apply (f_equal (λ x, "{{" +:+ body +:+ "}}" +:+ x)).
    replace (String.length (String c (("{{" +:+ body +:+ "}}") +:+ q)) - 1)
      with (String.length (("{{" +:+ body +:+ "}}") +:+ q) + 0)
      by (simpl; lia).
    apply replaceQuotedFrom_skip.
Qed.

Lemma stripTemplateQuotes_spec_witness :
  quoteFree "namespace: " = true
  ∧ plainBody " .Release.Namespace " = true
  ∧ (sq = sq ∨ sq = dq)
  ∧ stripTemplateQuotes
      ("namespace: " +:+ sq +:+ "{{" +:+ " .Release.Namespace " +:+ "}}"
       +:+ sq +:+ nl)
    = "namespace: " +:+ "{{" +:+ " .Release.Namespace " +:+ "}}"
      +:+ stripTemplateQuotes nl.
Proof.
  split; [reflexivity|]. split; [reflexivity|]. split; [by left|].
  apply (stripTemplateQuotes_spec "namespace: " " .Release.Namespace " nl sq);
    [reflexivity|reflexivity|by left].
Defined.

(** ** createTemplates: when it succeeds, and the names it gives *)

Section template_more.
Context `{Strings} `{Yaml}.

Lemma collectTemplates_ok i docs t :
  isOk (collectTemplates i docs t) ↔ Forall templatable docs.
Proof.
  revert i t. induction docs as [|d docs IH]; intros i t; simpl.
  - split; [constructor|intros _; by eexists].
  - rewrite Forall_cons. unfold templatable at 1.
    destruct (renderManifest d) as [text| |]; simpl.
    + destruct (kindOf d) as [kind|].
      * rewrite IH. split; [|tauto].
        intros Hall. split; [|done]. split; by eexists.
      * split; [by intros []|]. by intros [[_ [? ?]] _].
    + split; [by intros []|]. by intros [[[? ?] _] _].
    + split; [by intros []|]. by intros [[[? ?] _] _].
Qed.

Lemma collectTemplates_no_kind i pre d post t text :
  Forall templatable pre →
  renderManifest d = Ok text →
  kindOf d = None →
  collectTemplates i (pre ++ d :: post) t
  = Err ("manifest " +:+ pretty (i + length pre)
         +:+ " does not have a valid 'kind' field").
Proof.
  revert i t. induction pre as [|d' pre IH]; intros i t Hpre Hr Hk; simpl.
  - by rewrite Hr, Hk, Nat.add_0_r.
  - apply Forall_cons in Hpre as [[[text' Hr'] [kind Hk']] Hpre].
    rewrite Hr', Hk'. simpl. rewrite IH by done.
    by replace (S i + length pre) with (i + S (length pre)) by lia.
Qed.

(** X18. [createTemplates] succeeds exactly when every document renders
    and has a string kind; on success the chart keeps its metadata and its
    templates are built from the documents alone, those it had before being
    dropped; and the first document without a string kind, the ones before
    it being in order, is reported by its index. *)
Theorem createTemplates_success
    (order : gmap string chart.File → list (string * chart.File))
    (ch : chart.Chart) (docs : list (gmap string value)) :
  (isOk (createTemplates order ch docs) ↔ Forall templatable docs)
  ∧ (∀ c, createTemplates order ch docs = Ok c → chart.Meta c = chart.Meta ch)
  ∧ (∀ ch', chart.Templates <$> createTemplates order ch' docs
            = chart.Templates <$> createTemplates order ch docs)
  ∧ (∀ pre d post text,
       docs = pre ++ d :: post →
       Forall templatable pre →
       renderManifest d = Ok text →
       kindOf d = None →
       createTemplates order ch docs
       = Err ("manifest " +:+ pretty (length pre)
              +:+ " does not have a valid 'kind' field")).
Proof.
  unfold createTemplates. split_and!.
  - rewrite <-(collectTemplates_ok 0 docs ∅).
    destruct (collectTemplates 0 docs ∅); simpl;
      split; intros [? ?]; try done; by eexists.
  - intros c Hc. destruct (collectTemplates 0 docs ∅); simpl in Hc; [|done..].
    by injection Hc as <-.
  - intros ch'. by destruct (collectTemplates 0 docs ∅).
  - intros pre d post text -> Hpre Hr Hk.
    by rewrite (collectTemplates_no_kind 0 pre d post ∅ text).
Qed.

Lemma string_app_inv_l (a x y : string) : a +:+ x = a +:+ y → x = y.
Proof.
  induction a as [|c a IH]; [done|]. rewrite !string_app_cons.
  intros [= Heq]. by apply IH.
Qed.

Lemma string_app_inv_r (x y s : string) : x +:+ s = y +:+ s → x = y.
Proof.
  intros Heq.
  assert (Hlen : String.length x = String.length y).
  { apply (f_equal String.length) in Heq. rewrite !string_app_length in Heq. lia. }
  revert y Heq Hlen. induction x as [|c x IH]; intros [|c' y] Heq Hlen;
    try done.
  rewrite !string_app_cons in Heq. injection Heq as -> Heq.
  f_equal. apply IH; [done|]. simpl in Hlen. lia.
Qed.

Lemma templateName_inj k1 k2 :
  templateName k1 = templateName k2 ↔ ToLower k1 = ToLower k2.
Proof.
  unfold templateName. split; [|by intros ->].
  intros Heq%string_app_inv_l. by apply string_app_inv_r in Heq.
Qed.

Lemma NoDup_fmap_inj_on {A B} (f : A → B) (l : list A) :
  NoDup l →
  NoDup (f <$> l) ↔ ∀ x y, x ∈ l → y ∈ l → f x = f y → x = y.
Proof.
  induction 1 as [|x l Hx Hl IH]; simpl.
  - split; [by intros _ ? ? ?%elem_of_nil|constructor].
  - rewrite NoDup_cons, IH, list_elem_of_fmap. split.
    + intros [Hfx Hinj] a b [->|Ha]%elem_of_cons [->|Hb]%elem_of_cons Hf.
      * done.
      * destruct Hfx. by exists b.
      * destruct Hfx. by exists a.
      * by apply Hinj.
    + intros Hinj. split.
      * intros (y & Hf & Hy). apply Hx.
        assert (x = y) as ->; [|done].
        apply Hinj; [by left|by right|done].
      * intros a b Ha Hb. apply Hinj; by right.
Qed.

(** X19. On success, the file names of the templates are pairwise
    distinct exactly when no two kinds that occur differ by case alone: two
    such kinds give two templates of the same file name. *)
Theorem createTemplates_names
    (order : gmap string chart.File → list (string * chart.File))
    (ch c : chart.Chart) (docs : list (gmap string value)) :
  validOrder order →
  createTemplates order ch docs = Ok c →
  NoDup (chart.Name <$> chart.Templates c)
  ↔ ∀ k1 k2, k1 ∈ kindsOf docs → k2 ∈ kindsOf docs →
             ToLower k1 = ToLower k2 → k1 = k2.
Proof.
  intros Ho Hc.
  destruct (createTemplates_groups_by_kind order order ch docs c Ho Ho Hc)
    as (Hunits & Hnd & _).
  rewrite Hunits, <-list_fmap_compose.
  rewrite (NoDup_fmap_inj_on _ _ Hnd).
  by setoid_rewrite templateName_inj.
Qed.

End template_more.

Section template_more_runs.
Import doubles fixtures.

Lemma createTemplates_names_witness :
  validOrder forwardOrder
  ∧ (∃ c, createTemplates forwardOrder emptyChart
            [docRole; {[ "kind" := VStr "role" ]}] = Ok c
          ∧ ¬ NoDup (chart.Name <$> chart.Templates c)).
Proof.
  split; [apply validOrder_forward|].
  destruct (createTemplates forwardOrder emptyChart
              [docRole; {[ "kind" := VStr "role" ]}]) as [c| |] eqn:Hc;
    [|vm_compute in Hc; discriminate Hc..].
  exists c. split; [reflexivity|].
  rewrite (createTemplates_names forwardOrder emptyChart c _
             validOrder_forward Hc).
  intros Hinj. specialize (Hinj "Role" "role").
  assert ("Role" = "role") as Heq; [|discriminate Heq].
  apply Hinj; [vm_compute; by left|vm_compute; right; by left|reflexivity].
Defined.

End template_more_runs.

(** ** NewManifests *)

Section manifests_facts.
Context `{YamlDecoder}.

Lemma sortDocs_filter maps crds docs :
  sortDocs maps (crds, docs)
  = (crds ++ filter (λ d, isCrd d = true) maps,
     docs ++ filter (λ d, isCrd d ≠ true) maps).
Proof.
  unfold sortDocs. revert crds docs.
  induction maps as [|d maps IH]; intros crds docs; simpl.
  - by rewrite !app_nil_r.
  - rewrite !filter_cons. destruct (isCrd d) eqn:Hd.
    + rewrite IH, decide_True, decide_False by (done || congruence).
      by rewrite <-app_assoc.
    + rewrite IH, decide_False, decide_True by (done || congruence).
      by rewrite <-app_assoc.
Qed.

Lemma sortAssets_filter assets crds docs crds' docs' :
  sortAssets assets (crds, docs) = Ok (crds', docs') →
  Forall (λ a, isOk (ExtractYamls a.2)) assets
  ∧ crds' = crds ++ filter (λ d, isCrd d = true) (allDocs assets)
  ∧ docs' = docs ++ filter (λ d, isCrd d ≠ true) (allDocs assets).
Proof.
  revert crds docs. induction assets as [|[name data] assets IH];
    intros crds docs Hs; simpl in Hs.
  - injection Hs as <- <-. unfold allDocs. simpl.
    by rewrite !app_nil_r.
  - destruct (ExtractYamls data) as [maps| |] eqn:Hx; simpl in Hs; [|done..].
    rewrite sortDocs_filter in Hs.
    destruct (IH _ _ Hs) as (Hall & -> & ->).
    split_and!.
    + constructor; [simpl; rewrite Hx; by eexists|done].
    + unfold allDocs. simpl. rewrite Hx, filter_app. by rewrite <-app_assoc.
    + unfold allDocs. simpl. rewrite Hx, filter_app. by rewrite <-app_assoc.
Qed.

Lemma sortAssets_ok assets acc :
  Forall (λ a, isOk (ExtractYamls a.2)) assets → isOk (sortAssets assets acc).
Proof.
  revert acc. induction assets as [|[name data] assets IH]; intros acc Hall;
    simpl.
  - by eexists.
  - apply Forall_cons in Hall as [[maps Hx] Hall]. simpl in Hx.
    rewrite Hx. simpl. by apply IH.
Qed.

(** X20. When [NewManifests] succeeds, every asset was decoded without
    error, the schema-definition list holds exactly the documents whose kind
    starts with [CustomResourceDefinition] and the manifest list all the
    others, each in the order the documents were met; no document is lost
    or doubled; [ContainsCrds] tells whether there is a schema-definition
    document; and the versions and initial values are the ones given. *)
Theorem NewManifests_partition
    (assetOrder : gmap string string → list (string * string))
    (assetsData : gmap string string) (version : option semver.Version)
    (appVersion : string) (initialValues initialCrdValues : gmap string value)
    (ms : Manifests) :
  NewManifests assetOrder assetsData version appVersion
    initialValues initialCrdValues = Ok ms →
  let docs := allDocs (assetOrder assetsData) in
  Forall (λ a, isOk (ExtractYamls a.2)) (assetOrder assetsData)
  ∧ Crds ms = filter (λ d, isCrd d = true) docs
  ∧ manifests ms = filter (λ d, isCrd d ≠ true) docs
  ∧ Crds ms ++ manifests ms ≡ₚ docs
  ∧ (ContainsCrds ms = true ↔ Exists (λ d, isCrd d = true) docs)
  ∧ version = Some (Version ms)
  ∧ AppVersion ms = appVersion
  ∧ Values ms = initialValues
  ∧ CrdsValues ms = initialCrdValues.
Proof.
  intros Hn docs. unfold NewManifests in Hn.
  destruct (sortAssets (assetOrder assetsData) ([], []))
    as [[crds ds]| |] eqn:Hs; simpl in Hn; [|done..].
  destruct version as [v|]; [|done]. injection Hn as <-. simpl.
  destruct (sortAssets_filter _ _ _ _ _ Hs) as (Hall & -> & ->). simpl.
  split_and!; try done.
  - apply filter_app_complement.
  - unfold ContainsCrds. simpl. rewrite bool_decide_eq_true.
    fold docs. rewrite Exists_exists. split.
    + intros Hlen. destruct (filter _ docs) as [|d l] eqn:Hf;
        [simpl in Hlen; lia|].
      assert (d ∈ filter (λ d, isCrd d = true) docs) as Hd
        by (rewrite Hf; by left).
      apply list_elem_of_filter in Hd as [? ?]. by exists d.
    + intros (d & Hd & Hcrd).
      assert (d ∈ filter (λ d, isCrd d = true) docs) as Hin
        by by apply list_elem_of_filter.
      destruct (filter _ docs); [by apply elem_of_nil in Hin|simpl; lia].
Qed.

Lemma allDocs_Permutation assets1 assets2 :
  assets1 ≡ₚ assets2 → allDocs assets1 ≡ₚ allDocs assets2.
Proof. intros Hp. unfold allDocs. by rewrite Hp. Qed.

(** X21. The order in which the assets are visited decides the order of
    the documents and nothing else: under another order [NewManifests]
    succeeds as well, with the same documents in both lists, possibly
    rearranged. *)
Theorem NewManifests_any_order
    (order1 order2 : gmap string string → list (string * string))
    (assetsData : gmap string string) (version : option semver.Version)
    (appVersion : string) (initialValues initialCrdValues : gmap string value)
    (ms1 : Manifests) :
  validOrder order1 → validOrder order2 →
  NewManifests order1 assetsData version appVersion
    initialValues initialCrdValues = Ok ms1 →
  ∃ ms2, NewManifests order2 assetsData version appVersion
           initialValues initialCrdValues = Ok ms2
         ∧ Crds ms2 ≡ₚ Crds ms1
         ∧ manifests ms2 ≡ₚ manifests ms1
         ∧ Version ms2 = Version ms1.
Proof.
  intros Ho1 Ho2 Hn1.
  destruct (NewManifests_partition _ _ _ _ _ _ _ Hn1)
    as (Hall & Hc & Hm & _ & _ & Hv & _).
  assert (Hperm : order2 assetsData ≡ₚ order1 assetsData)
    by (by rewrite (Ho1 assetsData), (Ho2 assetsData)).
  assert (Hall2 : Forall (λ a, isOk (ExtractYamls a.2)) (order2 assetsData))
    by (by rewrite Hperm).
  destruct (sortAssets_ok _ ([], []) Hall2) as [[crds ds] Hs].
  exists {| Crds := crds; manifests := ds; Version := Version ms1;
            AppVersion := appVersion; Values := initialValues;
            CrdsValues := initialCrdValues |}.
  unfold NewManifests. rewrite Hs, Hv. simpl. split; [done|].
  destruct (sortAssets_filter _ _ _ _ _ Hs) as (_ & -> & ->). simpl.
  rewrite Hc, Hm. split_and!; [| |done].
  - by rewrite (allDocs_Permutation _ _ Hperm).
  - by rewrite (allDocs_Permutation _ _ Hperm).
Qed.

(** X22. [NewManifests] gives no manifest set when some asset does not
    decode, whatever the order, and panics on a nil version once all assets
    have been decoded. *)
Theorem NewManifests_failures
    (assetOrder : gmap string string → list (string * string))
    (assetsData : gmap string string) (version : option semver.Version)
    (appVersion : string) (initialValues initialCrdValues : gmap string value) :
  validOrder assetOrder →
  ((∃ name data, assetsData !! name = Some data ∧ ¬ isOk (ExtractYamls data)) →
   ¬ isOk (NewManifests assetOrder assetsData version appVersion
             initialValues initialCrdValues))
  ∧ ((∀ name data, assetsData !! name = Some data → isOk (ExtractYamls data)) →
     version = None →
     NewManifests assetOrder assetsData version appVersion
       initialValues initialCrdValues = Panic "nil pointer dereference").
Proof.
  intros Ho. split.
  - intros (name & data & Hin & Hbad) [ms Hn].
    destruct (NewManifests_partition _ _ _ _ _ _ _ Hn) as (Hall & _).
    rewrite (Ho assetsData), Forall_forall in Hall.
    apply Hbad, (Hall (name, data)). by apply elem_of_map_to_list.
  - intros Hgood ->. unfold NewManifests.
    destruct (sortAssets_ok (assetOrder assetsData) ([], [])) as [[crds ds] ->];
      [|done].
    rewrite (Ho assetsData). apply Forall_forall. intros [name data] Hin.
    apply (Hgood name). by apply elem_of_map_to_list.
Qed.

End manifests_facts.

Section manifests_runs.
Import doubles2 fixtures.

Lemma validOrder_forwardAssets : validOrder forwardAssets.
Proof. by intros t. Qed.

Lemma validOrder_reverseAssets : validOrder reverseAssets.
Proof. intros t. apply reverse_Permutation. Qed.

Lemma NewManifests_partition_witness :
  ∃ ms, NewManifests forwardAssets twoAssets (Some version001) "v9" ∅ ∅ = Ok ms
        ∧ Crds ms = [{[ "kind" := VStr "CustomResourceDefinition" ]}]
        ∧ length (manifests ms) = 2.
Proof.
  destruct (NewManifests forwardAssets twoAssets (Some version001) "v9" ∅ ∅)
    as [ms| |] eqn:Hn; [|vm_compute in Hn; discriminate Hn..].
  exists ms. split; [reflexivity|].
  destruct (NewManifests_partition _ _ _ _ _ _ _ Hn) as (_ & Hc & Hm & _).
  rewrite Hc, Hm. split; vm_compute; reflexivity.
Defined.

Lemma NewManifests_any_order_witness :
  validOrder forwardAssets ∧ validOrder reverseAssets
  ∧ ∃ ms1 ms2,
      NewManifests forwardAssets twoAssets (Some version001) "v9" ∅ ∅ = Ok ms1
      ∧ NewManifests reverseAssets twoAssets (Some version001) "v9" ∅ ∅ = Ok ms2
      ∧ manifests ms2 ≡ₚ manifests ms1.
Proof.
  split; [apply validOrder_forwardAssets|].
  split; [apply validOrder_reverseAssets|].
  destruct (NewManifests forwardAssets twoAssets (Some version001) "v9" ∅ ∅)
    as [ms1| |] eqn:Hn; [|vm_compute in Hn; discriminate Hn..].
  destruct (NewManifests_any_order forwardAssets reverseAssets _ _ _ _ _ ms1
              validOrder_forwardAssets validOrder_reverseAssets Hn)
    as (ms2 & Hn2 & _ & Hm & _).
  exists ms1, ms2.
  split; [reflexivity|].
  split; [exact Hn2 | exact Hm].
Defined.

Lemma NewManifests_failures_witness :
  validOrder forwardAssets
  ∧ (∃ name data, brokenAssets !! name = Some data ∧ ¬ isOk (ExtractYamls data))
  ∧ ¬ isOk (NewManifests forwardAssets brokenAssets (Some version001) "v9" ∅ ∅).
Proof.
  assert (Hbad : ∃ name data,
            brokenAssets !! name = Some data ∧ ¬ isOk (ExtractYamls data)).
  { exists "operator.yaml", ("Role" +:+ nl +:+ "!").
    split; [reflexivity|]. intros [docs Hd]. vm_compute in Hd. discriminate Hd. }
  split; [apply validOrder_forwardAssets|]. split; [exact Hbad|].
  by apply (proj1 (NewManifests_failures forwardAssets brokenAssets
                     (Some version001) "v9" ∅ ∅ validOrder_forwardAssets)).
Defined.

End manifests_runs.

(** ** downloadAssets *)

Section download_facts.
Context (download : ReleaseAsset → result string).

Lemma configured_lookup (configured : list string) (acc : gmap string string) n :
  foldl (λ acc asset, <[asset := EmptyString]> acc) acc configured !! n
  = if decide (n ∈ configured) then Some EmptyString else acc !! n.
Proof.
  revert acc. induction configured as [|a configured IH]; intros acc.
  - destruct (decide (n ∈ [])) as [Hin|_]; [|done].
    by apply elem_of_nil in Hin.
  - change (foldl (λ acc asset, <[asset := EmptyString]> acc)
              (<[a := EmptyString]> acc) configured !! n
            = if decide (n ∈ a :: configured) then Some EmptyString
              else acc !! n).
    rewrite IH.
    destruct (decide (n ∈ configured)) as [Hin|Hnin];
      destruct (decide (n ∈ a :: configured)) as [Hin'|Hnin']; try done.
    + exfalso. apply Hnin'. by right.
    + apply elem_of_cons in Hin' as [->|?]; [|done].
      by rewrite lookup_insert_eq.
    + rewrite lookup_insert_ne; [done|].
      intros ->. apply Hnin'. by left.
Qed.

Lemma configured_is_Some (configured : list string) n :
  is_Some (foldl (λ acc asset, <[asset := EmptyString]> acc)
             (∅ : gmap string string) configured !! n)
  ↔ n ∈ configured.
Proof.
  rewrite configured_lookup, lookup_empty.
  destruct (decide (n ∈ configured)) as [Hin|Hnin].
  - split; [intros _; exact Hin | intros _; by eexists].
  - split; [intros [x Hx]; discriminate Hx | intros Hin; by destruct Hnin].
Qed.

Lemma downloadInto_spec released (assetsData data : gmap string string) :
  downloadInto download released assetsData = Ok data →
  dom data = dom assetsData
  ∧ ∀ n, n ∉ assetName <$> released → data !! n = assetsData !! n.
Proof.
  revert assetsData. induction released as [|a released IH];
    intros assetsData Hd; simpl in Hd.
  - injection Hd as <-. done.
  - destruct (assetsData !! assetName a) as [old|] eqn:Hold.
    + destruct (download a) as [bytes| |]; simpl in Hd; [|done..].
      destruct (IH _ Hd) as [Hdom Hrest]. split.
      * rewrite Hdom, dom_insert_L.
        apply elem_of_dom_2 in Hold.
        apply set_eq. intros x. rewrite elem_of_union, elem_of_singleton.
        split; [intros [->|?]; done | by right].
      * intros n Hn. rewrite fmap_cons, not_elem_of_cons in Hn.
        destruct Hn as [Hne Hn]. rewrite Hrest by done.
        by rewrite lookup_insert_ne.
    + destruct (IH _ Hd) as [Hdom Hrest]. split; [done|].
      intros n Hn. rewrite fmap_cons, not_elem_of_cons in Hn.
      apply Hrest, Hn.
Qed.

Lemma downloadInto_ok released (assetsData : gmap string string) :
  isOk (downloadInto download released assetsData)
  ↔ ∀ a, a ∈ released → is_Some (assetsData !! assetName a) →
         isOk (download a).
Proof.
  revert assetsData. induction released as [|a released IH];
    intros assetsData; simpl.
  - split; [by intros _ ? ?%elem_of_nil|intros _; by eexists].
  - destruct (assetsData !! assetName a) as [old|] eqn:Hold.
    + destruct (download a) as [bytes| |] eqn:Hb; simpl.
      * rewrite IH. split.
        -- intros Hall b [->|Hin]%elem_of_cons Hb'; [by eexists|].
           apply Hall; [done|]. destruct Hb' as [x Hx].
           destruct (decide (assetName a = assetName b)) as [Heq|Hne].
           ++ rewrite <-Heq, lookup_insert_eq. by eexists.
           ++ rewrite lookup_insert_ne by done. by eexists.
        -- intros Hall b Hin Hb'. apply Hall; [by right|].
           destruct Hb' as [x Hx].
           destruct (decide (assetName a = assetName b)) as [Heq|Hne].
           ++ rewrite <-Heq, Hold. by eexists.
           ++ rewrite lookup_insert_ne in Hx by done. by eexists.
      * split; [by intros []|]. intros Hall.
        destruct (Hall a) as [? ?]; [by left|by eexists|].
        congruence.
      * split; [by intros []|]. intros Hall.
        destruct (Hall a) as [? ?]; [by left|by eexists|].
        congruence.
    + rewrite IH. split.
      * intros Hall b [->|Hin]%elem_of_cons Hb'.
        -- rewrite Hold in Hb'. by destruct Hb'.
        -- by apply Hall.
      * intros Hall b Hin. apply Hall. by right.
Qed.

(** X23. [downloadAssets] succeeds exactly when every released asset that
    is configured downloads: whether a released asset that is not
    configured would download has no bearing on it.  On success the result
    has an entry for each configured asset and no other, and a configured
    asset that the release does not hold is there with empty content,
    without error. *)
Theorem downloadAssets_spec (configured : list string)
    (released : list ReleaseAsset) :
  (isOk (downloadAssets download configured released)
   ↔ ∀ a, a ∈ released → assetName a ∈ configured → isOk (download a))
  ∧ (∀ data, downloadAssets download configured released = Ok data →
       (∀ n, is_Some (data !! n) ↔ n ∈ configured)
       ∧ (∀ n, n ∈ configured → n ∉ assetName <$> released →
               data !! n = Some EmptyString)).
Proof.
  unfold downloadAssets. split.
  - rewrite downloadInto_ok.
    split; intros Hall a Hin Hc; apply Hall; try done;
      by apply configured_is_Some.
  - intros data Hd. destruct (downloadInto_spec _ _ _ Hd) as [Hdom Hrest].
    split.
    + intros n. rewrite <-elem_of_dom, Hdom, elem_of_dom.
      apply configured_is_Some.
    + intros n Hin Hnot. rewrite Hrest by done.
      rewrite configured_lookup.
      destruct (decide (n ∈ configured)); done.
Qed.

End download_facts.
